(** * Ant colony simulation: a shallow embedding of [ant_simulation.py]

    The Python module is a single loop: [simulate] builds a pheromone
    field and a list of ants, then for every tick lets each ant [step]
    (which may [move] it and deposit pheromone) and finally calls
    [evaporate].

    Modelling choices.
    - Python [int] is [Z]; a position [[x, y]] is a pair [Z * Z].
    - The arithmetic on Python [float] is read twice.  The definitions
      at top level read it exactly, on the rationals in lowest terms
      [Qc], where equal numbers are equal terms: they carry the
      properties that rounding does not touch (which branch is taken,
      which subscripts are read, signs, orders, counts).  The module
      [Binary64] is the same code with the arithmetic as Python
      computes it, on IEEE 754 binary64 numbers with rounding,
      infinities and NaN: it is used wherever the rounding decides.
    - A Python list is a Rocq [list]; subscripting follows Python
      (negative subscripts count from the end, anything else out of
      range raises [IndexError], modelled as [None]).
    - The module-level constants are gathered in a record [Config], so
      that the same code can be read at other constants;
      [default_config] holds the values written in the source.
    - The ambient generator [random] is a stream [draws] of the values
      returned by [random.random()] together with a cursor [rng]
      counting the draws consumed so far. *)

From Stdlib Require Import ZArith QArith Qcanon List Bool Lia Lqa.
From Stdlib Require Import Floats.
Import ListNotations.

Open Scope Z_scope.

Notation "x <= y < z" := (x <= y /\ y < z)%Qc : Qc_scope.

(** ** Configuration constants *)

Record Config : Type := mkConfig {
  WIDTH : Z;
  HEIGHT : Z;
  ANT_COUNT : Z;
  NEST : Z * Z;
  FOOD : Z * Z;
  EVAPORATION : Qc;
  DEPOSIT : Qc
}.

Definition default_config : Config :=
  let width := 20 in
  let height := 20 in
  {| WIDTH := width;
     HEIGHT := height;
     ANT_COUNT := 100;
     NEST := (0, 0);
     FOOD := (width - 1, height - 1);
     EVAPORATION := Q2Qc 0.02;
     DEPOSIT := Q2Qc 1.0 |}.

(** Directions, in the order of the source list. *)
Definition DIRECTIONS : list (Z * Z) := [(-1, 0); (1, 0); (0, -1); (0, 1)].

(** ** Python lists *)

(** [range(n)]: empty when [n <= 0]. *)
Definition range (n : Z) : list Z := map Z.of_nat (seq 0 (Z.to_nat n)).

(** The list position a subscript [i] denotes in a list of length
    [len], if any. *)
Definition subscript (len : nat) (i : Z) : option nat :=
  let n := Z.of_nat len in
  if (0 <=? i) && (i <? n) then Some (Z.to_nat i)
  else if (- n <=? i) && (i <? 0) then Some (Z.to_nat (i + n))
  else None.

Fixpoint replace {A : Type} (k : nat) (v : A) (l : list A) : list A :=
  match l, k with
  | [], _ => []
  | _ :: t, O => v :: t
  | h :: t, S k' => h :: replace k' v t
  end.

(** [l[i]] *)
Definition getitem {A : Type} (l : list A) (i : Z) : option A :=
  match subscript (length l) i with
  | Some k => nth_error l k
  | None => None
  end.

(** [l[i] = v] *)
Definition setitem {A : Type} (l : list A) (i : Z) (v : A) : option (list A) :=
  match subscript (length l) i with
  | Some k => Some (replace k v l)
  | None => None
  end.

(** ** The pheromone field: [pheromones[y][x]] *)

Definition Field : Type := list (list Qc).

Definition cell (pheromones : Field) (x y : Z) : option Qc :=
  match getitem pheromones y with
  | Some row => getitem row x
  | None => None
  end.

(** [pheromones[y][x] = f(pheromones[y][x])], the shape of both
    augmented assignments of the source. *)
Definition update (f : Qc -> Qc) (pheromones : Field) (x y : Z) : option Field :=
  match getitem pheromones y with
  | Some row =>
      match getitem row x with
      | Some v =>
          match setitem row x (f v) with
          | Some row' => setitem pheromones y row'
          | None => None
          end
      | None => None
      end
  | None => None
  end.

(** ** Ants *)

Record Ant : Type := mkAnt {
  id : Z;
  pos : Z * Z;
  carrying : bool
}.

(** [Ant(idx)] *)
Definition new_ant (cfg : Config) (idx : Z) : Ant :=
  {| id := idx; pos := NEST cfg; carrying := false |}.

Definition set_pos (a : Ant) (p : Z * Z) : Ant :=
  {| id := id a; pos := p; carrying := carrying a |}.

Definition set_carrying (a : Ant) (c : bool) : Ant :=
  {| id := id a; pos := pos a; carrying := c |}.

Definition pos_eqb (p q : Z * Z) : bool :=
  (fst p =? fst q) && (snd p =? snd q).

(** [0 <= nx < WIDTH and 0 <= ny < HEIGHT] *)
Definition in_bounds (cfg : Config) (p : Z * Z) : bool :=
  (0 <=? fst p) && (fst p <? WIDTH cfg) && (0 <=? snd p) && (snd p <? HEIGHT cfg).

(** The first loop of [move]: the in-bounds neighbours of [(x, y)] and
    their weights, in the order of [dirs]. *)
Fixpoint neighbours (cfg : Config) (pheromones : Field) (x y : Z)
    (dirs : list (Z * Z)) : option (list (Z * Z) * list Qc) :=
  match dirs with
  | [] => Some ([], [])
  | (dx, dy) :: rest =>
      let nx := x + dx in
      let ny := y + dy in
      if in_bounds cfg (nx, ny) then
        match cell pheromones nx ny with
        | Some p =>
            match neighbours cfg pheromones x y rest with
            | Some (candidates, weights) =>
                Some ((nx, ny) :: candidates, (1 + p)%Qc :: weights)
            | None => None
            end
        | None => None
        end
      else neighbours cfg pheromones x y rest
  end.

(** [sum(weights)], exactly; [Binary64.sum] is the rounded one. *)
Definition sum (weights : list Qc) : Qc := fold_left Qcplus weights 0%Qc.

(** [random.uniform(a, b)] is [a + (b - a) * random()]; exactly here,
    rounded in [Binary64.uniform]. *)
Definition uniform (a b u : Qc) : Qc := (a + (b - a) * u)%Qc.

(** The second loop of [move]: [Some c] when the loop breaks at
    candidate [c], [None] when it runs to the end without breaking.
    The running [cumulative] is exact here and rounded in
    [Binary64.select]. *)
Fixpoint select (r cumulative : Qc) (cws : list ((Z * Z) * Qc)) : option (Z * Z) :=
  match cws with
  | [] => None
  | (c, w) :: rest =>
      let cumulative := (cumulative + w)%Qc in
      if Qle_bool r cumulative then Some c else select r cumulative rest
  end.

Section Simulation.

Variable cfg : Config.
Variable draws : nat -> Qc.

(** [Ant.move]: the ant after the call and the cursor of the
    generator, or [None] if a subscript raised. *)
Definition move (ant : Ant) (pheromones : Field) (rng : nat) : option (Ant * nat) :=
  let '(x, y) := pos ant in
  match neighbours cfg pheromones x y DIRECTIONS with
  | Some (candidates, weights) =>
      let total := sum weights in
      let r := uniform 0 total (draws rng) in
      match select r 0%Qc (combine candidates weights) with
      | Some c => Some (set_pos ant c, S rng)
      | None => Some (ant, S rng)
      end
  | None => None
  end.

(** [Ant.step] *)
Definition step (ant : Ant) (pheromones : Field) (rng : nat)
    : option (Ant * Field * nat) :=
  if negb (carrying ant) then
    if pos_eqb (pos ant) (FOOD cfg) then
      Some (set_carrying ant true, pheromones, rng)
    else
      match move ant pheromones rng with
      | Some (ant', rng') => Some (ant', pheromones, rng')
      | None => None
      end
  else
    if pos_eqb (pos ant) (NEST cfg) then
      Some (set_carrying ant false, pheromones, rng)
    else
      match move ant pheromones rng with
      | Some (ant', rng') =>
          let '(x, y) := pos ant' in
          match update (fun v => (v + DEPOSIT cfg)%Qc) pheromones x y with
          | Some pheromones' => Some (ant', pheromones', rng')
          | None => None
          end
      | None => None
      end.

(** [evaporate]: the inner loop over [x] for one [y], and the outer
    loop over [y].  The product is exact here and rounded in
    [Binary64.evaporate]. *)
Fixpoint evaporate_row (pheromones : Field) (y : Z) (xs : list Z) : option Field :=
  match xs with
  | [] => Some pheromones
  | x :: xs' =>
      match update (fun v => (v * (1 - EVAPORATION cfg))%Qc) pheromones x y with
      | Some pheromones' => evaporate_row pheromones' y xs'
      | None => None
      end
  end.

Fixpoint evaporate_rows (pheromones : Field) (ys : list Z) : option Field :=
  match ys with
  | [] => Some pheromones
  | y :: ys' =>
      match evaporate_row pheromones y (range (WIDTH cfg)) with
      | Some pheromones' => evaporate_rows pheromones' ys'
      | None => None
      end
  end.

Definition evaporate (pheromones : Field) : option Field :=
  evaporate_rows pheromones (range (HEIGHT cfg)).

(** ** The clock *)

(** The two keys of [stats]. *)
Record Stats : Type := mkStats {
  found_food : Z;
  returned : Z
}.

(** The variables of [simulate] that live across ticks, and the cursor
    of the generator. *)
Record Sim : Type := mkSim {
  pheromones : Field;
  ants : list Ant;
  stats : Stats;
  rng : nat
}.

(** The two tests of the inner loop body, on the position before the
    step and the ant after it. *)
Definition reached_food (before : Z * Z) (ant : Ant) : bool :=
  negb (carrying ant) && pos_eqb (pos ant) (FOOD cfg) && negb (pos_eqb before (FOOD cfg)).

Definition reached_nest (before : Z * Z) (ant : Ant) : bool :=
  carrying ant && pos_eqb (pos ant) (NEST cfg) && negb (pos_eqb before (NEST cfg)).

Definition record (before : Z * Z) (ant : Ant) (st : Stats) : Stats :=
  let st1 :=
    if reached_food before ant
    then {| found_food := found_food st + 1; returned := returned st |}
    else st in
  if reached_nest before ant
  then {| found_food := found_food st1; returned := returned st1 + 1 |}
  else st1.

(** [for ant in ants: ...]: the ants still to visit are [todo]; the
    result lists the visited ants in the same order. *)
Fixpoint ants_loop (todo : list Ant) (ph : Field) (st : Stats) (rng : nat)
    : option (list Ant * Field * Stats * nat) :=
  match todo with
  | [] => Some ([], ph, st, rng)
  | ant :: rest =>
      let before := pos ant in
      match step ant ph rng with
      | Some (ant', ph', rng') =>
          let st' := record before ant' st in
          match ants_loop rest ph' st' rng' with
          | Some (rest', ph'', st'', rng'') => Some (ant' :: rest', ph'', st'', rng'')
          | None => None
          end
      | None => None
      end
  end.

(** One iteration of [for step in range(steps)]. *)
Definition tick (s : Sim) : option Sim :=
  match ants_loop (ants s) (pheromones s) (stats s) (rng s) with
  | Some (ants', ph, st, rng') =>
      match evaporate ph with
      | Some ph' => Some {| pheromones := ph'; ants := ants'; stats := st; rng := rng' |}
      | None => None
      end
  | None => None
  end.

Fixpoint ticks (n : nat) (s : Sim) : option Sim :=
  match n with
  | O => Some s
  | S n' =>
      match tick s with
      | Some s' => ticks n' s'
      | None => None
      end
  end.

(** The snapshots the clock compares, for every (tick, agent) pair of
    [n] ticks from [s] in execution order: the agent as it was before
    its step of that tick and as it is after it.  Only an agent's own
    step changes the agent, so these are its entries in the list of
    ants at the start and at the end of the tick. *)
Fixpoint observe (n : nat) (s : Sim) : option (list (Ant * Ant)) :=
  match n with
  | O => Some []
  | S n' =>
      match tick s with
      | Some s' =>
          match observe n' s' with
          | Some later => Some (combine (ants s) (ants s') ++ later)
          | None => None
          end
      | None => None
      end
  end.

(** The state [simulate] builds before its loop. *)
Definition initial : Sim :=
  {| pheromones := map (fun _ => map (fun _ => 0%Qc) (range (WIDTH cfg))) (range (HEIGHT cfg));
     ants := map (new_ant cfg) (range (ANT_COUNT cfg));
     stats := {| found_food := 0; returned := 0 |};
     rng := O |}.

(** [simulate(steps)], up to the three [print]s: the state they read. *)
Definition simulate (steps : Z) : option Sim :=
  ticks (Z.to_nat steps) initial.

End Simulation.

(** ** Vocabulary of the specification *)

(** A field of [HEIGHT] rows of [WIDTH] cells. *)
Definition shaped (cfg : Config) (ph : Field) : Prop :=
  length ph = Z.to_nat (HEIGHT cfg) /\
  Forall (fun row => length row = Z.to_nat (WIDTH cfg)) ph.

Definition nonneg (ph : Field) : Prop :=
  Forall (Forall (fun v => 0 <= v)%Qc) ph.

(** Total pheromone on the field. *)
Definition total_row (row : list Qc) : Qc := fold_right Qcplus 0%Qc row.

Definition mass (ph : Field) : Qc :=
  fold_right (fun row acc => (total_row row + acc)%Qc) 0%Qc ph.

Definition offset (p d : Z * Z) : Z * Z := (fst p + fst d, snd p + snd d).

(** [q] is an orthogonal neighbour of [p]. *)
Definition adjacent (p q : Z * Z) : Prop := In q (map (offset p) DIRECTIONS).

(** The cell at [p] has an in-bounds orthogonal neighbour. *)
Definition has_neighbour (cfg : Config) (p : Z * Z) : bool :=
  existsb (fun d => in_bounds cfg (offset p d)) DIRECTIONS.

(** Where an ant can be: still at NEST, where [Ant.__init__] put it,
    or on a cell of the grid. *)
Definition placed (cfg : Config) (a : Ant) : Prop :=
  pos a = NEST cfg \/ in_bounds cfg (pos a) = true.

(** [pheromones[y][x] += DEPOSIT] at the position of the ant. *)
Definition deposit (cfg : Config) (ph : Field) (p : Z * Z) : option Field :=
  update (fun v => (v + DEPOSIT cfg)%Qc) ph (fst p) (snd p).

(** The agent states of section 4.2. *)
Definition searching (a : Ant) : Prop := carrying a = false.
Definition returning (a : Ant) : Prop := carrying a = true.

(** Searching becomes Returning / Returning becomes Searching, on a
    before/after snapshot. *)
Definition picked_up (ba : Ant * Ant) : bool :=
  negb (carrying (fst ba)) && carrying (snd ba).

Definition dropped (ba : Ant * Ant) : bool :=
  carrying (fst ba) && negb (carrying (snd ba)).

(** The two tests of the clock, on a snapshot: what [simulate] adds to
    [found_food] and to [returned]. *)
Definition counts_food (cfg : Config) (ba : Ant * Ant) : bool :=
  reached_food cfg (pos (fst ba)) (snd ba).

Definition counts_nest (cfg : Config) (ba : Ant * Ant) : bool :=
  reached_nest cfg (pos (fst ba)) (snd ba).

(** [q] is an orthogonal neighbour of [p], decided. *)
Definition neighbouring (p q : Z * Z) : bool :=
  existsb (fun d => pos_eqb (offset p d) q) DIRECTIONS.

(** The arrivals, said without the clock: the agent was Searching
    before its step and is Searching after it, stands on FOOD after
    it, and came there from a neighbouring cell; and the same for a
    Returning agent and NEST. *)
Definition arrived_food (cfg : Config) (ba : Ant * Ant) : bool :=
  negb (carrying (fst ba)) && negb (carrying (snd ba))
  && pos_eqb (pos (snd ba)) (FOOD cfg)
  && neighbouring (pos (fst ba)) (pos (snd ba)).

Definition arrived_nest (cfg : Config) (ba : Ant * Ant) : bool :=
  carrying (fst ba) && carrying (snd ba)
  && pos_eqb (pos (snd ba)) (NEST cfg)
  && neighbouring (pos (fst ba)) (pos (snd ba)).

(** A snapshot pair that one call of [step] produces. *)
Definition stepped (cfg : Config) (draws : nat -> Qc) (ba : Ant * Ant) : Prop :=
  exists ph rng ph' rng',
    step cfg draws (fst ba) ph rng = Some (snd ba, ph', rng').

Definition count {A : Type} (f : A -> bool) (l : list A) : Z :=
  Z.of_nat (length (filter f l)).

(** The operations on the field of section 4.1, as [step] and
    [evaporate] perform them. *)
Inductive FieldOp : Type :=
  | Deposit (x y : Z)
  | EvaporateAll.

Definition apply_op (cfg : Config) (ph : Field) (o : FieldOp) : option Field :=
  match o with
  | Deposit x y => update (fun v => (v + DEPOSIT cfg)%Qc) ph x y
  | EvaporateAll => evaporate cfg ph
  end.

Fixpoint apply_ops (cfg : Config) (ph : Field) (os : list FieldOp) : option Field :=
  match os with
  | [] => Some ph
  | o :: os' =>
      match apply_op cfg ph o with
      | Some ph' => apply_ops cfg ph' os'
      | None => None
      end
  end.

(** The configurations section 7 calls configuration errors. *)
Definition configuration_error (cfg : Config) : bool :=
  (WIDTH cfg <=? 0) || (HEIGHT cfg <=? 0) || (ANT_COUNT cfg <? 0)
  || negb (Qle_bool 0 (EVAPORATION cfg) && negb (Qle_bool 1 (EVAPORATION cfg)))
  || negb (in_bounds cfg (NEST cfg)) || negb (in_bounds cfg (FOOD cfg))
  || ((WIDTH cfg =? 1) && (HEIGHT cfg =? 1)).

(** * The arithmetic as Python computes it

    A Python [float] is an IEEE 754 binary64 number and every
    operation on it rounds to the nearest one, ties to even; a
    comparison with NaN is false.  The definitions above read the
    arithmetic of the source exactly; the module below is the same
    code with the arithmetic as it is computed, on the primitive
    floats of Rocq, which are these numbers.  The integer constants
    are read from [Config] as before; the two float constants come
    with the record [Floats]. *)
Module Binary64.

Definition Field : Type := list (list float).

Definition cell (pheromones : Field) (x y : Z) : option float :=
  match getitem pheromones y with
  | Some row => getitem row x
  | None => None
  end.

Definition update (f : float -> float) (pheromones : Field) (x y : Z) : option Field :=
  match getitem pheromones y with
  | Some row =>
      match getitem row x with
      | Some v =>
          match setitem row x (f v) with
          | Some row' => setitem pheromones y row'
          | None => None
          end
      | None => None
      end
  | None => None
  end.

(** The built-in [sum] on floats depends on the interpreter: CPython
    before 3.12 adds from left to right; from 3.12 on it also carries
    the compensation term of Neumaier's summation and adds it at the
    end. *)
Inductive Summation : Type :=
  | LeftToRight
  | Compensated.

Record Floats : Type := mkFloats {
  EVAPORATION : float;
  DEPOSIT : float;
  summation : Summation
}.

(** The loop of the compensated [sum]: [f_result] is the running sum
    and [c] the compensation. *)
Fixpoint neumaier (f_result c : float) (items : list float) : float * float :=
  match items with
  | [] => (f_result, c)
  | x :: rest =>
      let t := (f_result + x)%float in
      let c :=
        if (abs x <=? abs f_result)%float
        then (c + ((f_result - t) + x))%float
        else (c + ((x - t) + f_result))%float in
      neumaier t c rest
  end.

Definition is_finite (x : float) : bool := negb (is_nan x) && negb (is_infinity x).

(** [sum(weights)], from the integer 0: the compensation is added
    only when it is neither zero nor infinite nor NaN. *)
Definition sum (v : Summation) (weights : list float) : float :=
  match v with
  | LeftToRight => fold_left add weights 0%float
  | Compensated =>
      match weights with
      | [] => 0%float
      | w :: rest =>
          let '(f_result, c) := neumaier (0 + w)%float 0%float rest in
          if negb (c =? 0)%float && is_finite c then (f_result + c)%float else f_result
      end
  end.

(** [random.uniform(a, b)] is [a + (b - a) * random()]. *)
Definition uniform (a b u : float) : float := (a + (b - a) * u)%float.

Fixpoint neighbours (cfg : Config) (pheromones : Field) (x y : Z)
    (dirs : list (Z * Z)) : option (list (Z * Z) * list float) :=
  match dirs with
  | [] => Some ([], [])
  | (dx, dy) :: rest =>
      let nx := x + dx in
      let ny := y + dy in
      if in_bounds cfg (nx, ny) then
        match cell pheromones nx ny with
        | Some p =>
            match neighbours cfg pheromones x y rest with
            | Some (candidates, weights) =>
                Some ((nx, ny) :: candidates, (1 + p)%float :: weights)
            | None => None
            end
        | None => None
        end
      else neighbours cfg pheromones x y rest
  end.

Fixpoint select (r cumulative : float) (cws : list ((Z * Z) * float)) : option (Z * Z) :=
  match cws with
  | [] => None
  | (c, w) :: rest =>
      let cumulative := (cumulative + w)%float in
      if (r <=? cumulative)%float then Some c else select r cumulative rest
  end.

(** The value of [cumulative] after the loop has passed the weights
    [ws], from [cumulative]. *)
Definition cumulated (cumulative : float) (ws : list float) : float :=
  fold_left add ws cumulative.

(** The test [r <= cumulative] of the loop at candidate number [j],
    counted from 0. *)
Definition reaches (r : float) (ws : list float) (j : nat) : bool :=
  (r <=? cumulated 0%float (firstn (S j) ws))%float.

Section Simulation.

Variable cfg : Config.
Variable fl : Floats.
Variable draws : nat -> float.

Definition move (ant : Ant) (pheromones : Field) (rng : nat) : option (Ant * nat) :=
  let '(x, y) := pos ant in
  match neighbours cfg pheromones x y DIRECTIONS with
  | Some (candidates, weights) =>
      let total := sum (summation fl) weights in
      let r := uniform 0%float total (draws rng) in
      match select r 0%float (combine candidates weights) with
      | Some c => Some (set_pos ant c, S rng)
      | None => Some (ant, S rng)
      end
  | None => None
  end.

Definition step (ant : Ant) (pheromones : Field) (rng : nat)
    : option (Ant * Field * nat) :=
  if negb (carrying ant) then
    if pos_eqb (pos ant) (FOOD cfg) then
      Some (set_carrying ant true, pheromones, rng)
    else
      match move ant pheromones rng with
      | Some (ant', rng') => Some (ant', pheromones, rng')
      | None => None
      end
  else
    if pos_eqb (pos ant) (NEST cfg) then
      Some (set_carrying ant false, pheromones, rng)
    else
      match move ant pheromones rng with
      | Some (ant', rng') =>
          let '(x, y) := pos ant' in
          match update (fun v => (v + DEPOSIT fl)%float) pheromones x y with
          | Some pheromones' => Some (ant', pheromones', rng')
          | None => None
          end
      | None => None
      end.

Fixpoint evaporate_row (pheromones : Field) (y : Z) (xs : list Z) : option Field :=
  match xs with
  | [] => Some pheromones
  | x :: xs' =>
      match update (fun v => (v * (1 - EVAPORATION fl))%float) pheromones x y with
      | Some pheromones' => evaporate_row pheromones' y xs'
      | None => None
      end
  end.

Fixpoint evaporate_rows (pheromones : Field) (ys : list Z) : option Field :=
  match ys with
  | [] => Some pheromones
  | y :: ys' =>
      match evaporate_row pheromones y (range (WIDTH cfg)) with
      | Some pheromones' => evaporate_rows pheromones' ys'
      | None => None
      end
  end.

Definition evaporate (pheromones : Field) : option Field :=
  evaporate_rows pheromones (range (HEIGHT cfg)).

Record Sim : Type := mkSim {
  pheromones : Field;
  ants : list Ant;
  stats : Stats;
  rng : nat
}.

Fixpoint ants_loop (todo : list Ant) (ph : Field) (st : Stats) (rng : nat)
    : option (list Ant * Field * Stats * nat) :=
  match todo with
  | [] => Some ([], ph, st, rng)
  | ant :: rest =>
      let before := pos ant in
      match step ant ph rng with
      | Some (ant', ph', rng') =>
          let st' := record cfg before ant' st in
          match ants_loop rest ph' st' rng' with
          | Some (rest', ph'', st'', rng'') => Some (ant' :: rest', ph'', st'', rng'')
          | None => None
          end
      | None => None
      end
  end.

Definition tick (s : Sim) : option Sim :=
  match ants_loop (ants s) (pheromones s) (stats s) (rng s) with
  | Some (ants', ph, st, rng') =>
      match evaporate ph with
      | Some ph' => Some {| pheromones := ph'; ants := ants'; stats := st; rng := rng' |}
      | None => None
      end
  | None => None
  end.

Fixpoint ticks (n : nat) (s : Sim) : option Sim :=
  match n with
  | O => Some s
  | S n' =>
      match tick s with
      | Some s' => ticks n' s'
      | None => None
      end
  end.

Definition initial : Sim :=
  {| pheromones := map (fun _ => map (fun _ => 0%float) (range (WIDTH cfg))) (range (HEIGHT cfg));
     ants := map (new_ant cfg) (range (ANT_COUNT cfg));
     stats := {| found_food := 0; returned := 0 |};
     rng := O |}.

Definition simulate (steps : Z) : option Sim :=
  ticks (Z.to_nat steps) initial.

End Simulation.

(** The rational number a finite float is; 0 for an infinity or a NaN,
    which [is_finite] tells apart. *)
Definition to_Q (x : float) : Q :=
  match Prim2SF x with
  | S754_finite s m e =>
      let q := (inject_Z (Zpos m) * Qpower 2 e)%Q in
      if s then (- q)%Q else q
  | _ => 0%Q
  end.

(** The total on a field, as a rational. *)
Definition mass (ph : Field) : Q :=
  fold_right (fun row acc => (fold_right (fun v a => to_Q v + a) 0 row + acc)%Q) 0%Q ph.

End Binary64.

(** ** Constants and draws used as examples *)

(** The source at [WIDTH = HEIGHT = 1]: FOOD, written
    [(WIDTH - 1, HEIGHT - 1)], coincides with NEST. *)
Definition one_by_one : Config :=
  let width := 1 in
  let height := 1 in
  {| WIDTH := width;
     HEIGHT := height;
     ANT_COUNT := 100;
     NEST := (0, 0);
     FOOD := (width - 1, height - 1);
     EVAPORATION := Q2Qc 0.02;
     DEPOSIT := Q2Qc 1.0 |}.

(** The corridor of section 8: a 3 x 1 grid with NEST and FOOD at its
    ends and one agent. *)
Definition corridor : Config :=
  {| WIDTH := 3;
     HEIGHT := 1;
     ANT_COUNT := 1;
     NEST := (0, 0);
     FOOD := (2, 0);
     EVAPORATION := Q2Qc 0.02;
     DEPOSIT := Q2Qc 1.0 |}.

(** A generator that returns [0.75] twice and [0.25] ever after: in
    the corridor, from the middle cell, the first selects the step
    towards FOOD and the second the step towards NEST. *)
Definition there_and_back : nat -> Qc :=
  fun n => if (n <? 2)%nat then Q2Qc 0.75 else Q2Qc 0.25.

(** What the report and a test harness see of a state: the position
    and [carrying] of every ant, and the two counters. *)
Definition summary (s : option Sim) : option (list (Z * Z * bool) * (Z * Z)) :=
  match s with
  | Some s =>
      Some (map (fun a => (pos a, carrying a)) (ants s),
            (found_food (stats s), returned (stats s)))
  | None => None
  end.

(** A generator that always returns [0.5]. *)
Definition half : nat -> Qc := fun _ => Q2Qc 0.5.

(** A generator that returns [0.5] 5000 times and [0.25] ever after. *)
Definition late_change : nat -> Qc :=
  fun n => if (n <? 5000)%nat then Q2Qc 0.5 else Q2Qc 0.25.

(** A generator that returns [0.5] 1900 times and [0.75] ever after.
    On the grid of the source without pheromone, [0.5] selects the
    step to [(x + 1, 0)] from every [(x, 0)] with [x < 19], and [0.75]
    the step to [(19, y + 1)] from every [(19, y)] with [y < 19]: the
    100 ants of the source walk from NEST to FOOD in 38 ticks. *)
Definition straight_to_food : nat -> Qc :=
  fun n => if (n <? 1900)%nat then Q2Qc 0.5 else Q2Qc 0.75.

(** ** Floats used as examples *)

#[local] Set Warnings "-inexact-float".

(** The two float constants of the source, [EVAPORATION = 0.02] and
    [DEPOSIT = 1.0], under either [sum]. *)
Definition source_floats (v : Binary64.Summation) : Binary64.Floats :=
  {| Binary64.EVAPORATION := 0.02%float;
     Binary64.DEPOSIT := 1.0%float;
     Binary64.summation := v |}.

(** A field of the size of the source that holds [v] on the
    orthogonal neighbours of [p] and zero elsewhere. *)
Definition around (p : Z * Z) (v : float) : Binary64.Field :=
  map (fun y => map (fun x => if neighbouring p (x, y) then v else 0%float) (range 20))
      (range 20).

(** A field of the size of the source that holds 599 to the left of
    [(5, 5)], [2^-44] on its three other neighbours and zero
    elsewhere: the weights of the candidates are 600 and three times
    [1 + 2^-44]. *)
Definition uneven : Binary64.Field :=
  map (fun y =>
         map (fun x =>
                if pos_eqb (x, y) (4, 5) then 599%float
                else if neighbouring (5, 5) (x, y) then 0x1p-44%float
                else 0%float)
             (range 20))
      (range 20).

(** The largest value of [random.random()], [1 - 2^-53]. *)
Definition almost_one : float := 0x1.fffffffffffffp-1%float.

(** Every cell of a field is a number and not below zero. *)
Definition all_nonneg (ph : Binary64.Field) : bool :=
  forallb (forallb (fun v => (0 <=? v)%float)) ph.

Definition all_finite (ph : Binary64.Field) : bool :=
  forallb (forallb Binary64.is_finite) ph.


(** The corridor with [EVAPORATION = 3]: every evaporation multiplies
    by [-2]. *)
Definition hasty : Config :=
  {| WIDTH := 3;
     HEIGHT := 1;
     ANT_COUNT := 1;
     NEST := (0, 0);
     FOOD := (2, 0);
     EVAPORATION := Q2Qc 3;
     DEPOSIT := Q2Qc 1.0 |}.


(** ** Auxiliary functions *)

(** [f] applied to the elements of [l] from position [a] on: what a
    loop over the subscripts [a], [a+1], ... has done when it
    ends. *)
Fixpoint map_from {A : Type} (f : A -> A) (a : nat) (l : list A) : list A :=
  match l, a with
  | [], _ => []
  | h :: t, O => f h :: map_from f O t
  | h :: t, S a' => h :: map_from f a' t
  end.

(** The factor of one evaporation. *)
Definition decay (cfg : Config) (v : Qc) : Qc := (v * (1 - EVAPORATION cfg))%Qc.

(** ** Further vocabulary *)

(** Distance in steps of [move]. *)
Definition manhattan (p q : Z * Z) : Z :=
  Z.abs (fst p - fst q) + Z.abs (snd p - snd q).

(** An agent after [t] ticks that is no further from NEST than [t]
    steps and, when it carries, left FOOD late enough to have walked
    there and picked up. *)
Definition on_schedule (cfg : Config) (t : Z) (a : Ant) : Prop :=
  manhattan (NEST cfg) (pos a) <= t /\
  (carrying a = true ->
   manhattan (NEST cfg) (FOOD cfg) + 1 + manhattan (FOOD cfg) (pos a) <= t).

(** An agent on a trip the clock has counted at FOOD and not yet at
    NEST: Searching on FOOD, about to pick up, or Returning away from
    NEST. *)
Definition laden (cfg : Config) (a : Ant) : bool :=
  if carrying a then negb (pos_eqb (pos a) (NEST cfg))
  else pos_eqb (pos a) (FOOD cfg).




(** ** Tactics *)

(** Split the conjunctions that are written out, without unfolding
    any definition. *)
Ltac splits := repeat match goal with |- _ /\ _ => split end.

(** Read a goal on [Qc], with the comparisons among its hypotheses,
    as a goal on [Q]: [this] is pushed through the operations, whose
    results differ from those on [Q] only by a reduction to lowest
    terms. *)
Ltac qc_push :=
  repeat match goal with
         | |- context [this (Qcminus ?x ?y)] =>
             change (Qcminus x y) with (Qcplus x (Qcopp y))
         | |- context [this (Qcdiv ?x ?y)] =>
             change (Qcdiv x y) with (Qcmult x (Qcinv y))
         | |- context [this (Qcplus ?x ?y)] =>
             change (this (Qcplus x y)) with (Qred (this x + this y));
             rewrite (Qred_correct (this x + this y))
         | |- context [this (Qcmult ?x ?y)] =>
             change (this (Qcmult x y)) with (Qred (this x * this y));
             rewrite (Qred_correct (this x * this y))
         | |- context [this (Qcopp ?x)] =>
             change (this (Qcopp x)) with (Qred (- this x));
             rewrite (Qred_correct (- this x))
         | |- context [this (Qcinv ?x)] =>
             change (this (Qcinv x)) with (Qred (/ this x));
             rewrite (Qred_correct (/ this x))
         | |- context [this (Q2Qc ?q)] =>
             change (this (Q2Qc q)) with (Qred q);
             rewrite (Qred_correct q)
         end.

Ltac qc2q :=
  try match goal with |- ~ _ => intro end;
  try match goal with |- @eq Qc _ _ => apply Qc_is_canon end;
  repeat match goal with
         | H : Qcle _ _ /\ _ |- _ => destruct H
         | H : Qclt _ _ /\ _ |- _ => destruct H
         end;
  repeat match goal with
         | H : Qcle _ _ |- _ => revert H
         | H : Qclt _ _ |- _ => revert H
         | H : @eq Qc ?x ?y |- _ =>
             apply (fun e : x = y =>
                      eq_ind x (fun z : Qc => (this x == this z)%Q)
                             (Qeq_refl (this x)) y e) in H;
             revert H
         | H : ~ @eq Qc ?x ?y |- _ =>
             generalize (fun e : (this x == this y)%Q => H (Qc_is_canon x y e));
             clear H
         end;
  unfold Qcle, Qclt;
  qc_push;
  intros.

Ltac qlra := qc2q; lra.

(** * Proofs *)

(** ** The model at work *)

(** One round trip in the corridor, tick by tick: the agent reaches
    FOOD in tick 2, where [found_food] becomes 1; it picks up in tick
    3 without moving; it reaches NEST in tick 5, where [returned]
    becomes 1; it drops in tick 6 without moving. *)
Example corridor_round_trip :
  map (fun steps => summary (simulate corridor there_and_back steps)) [0; 1; 2; 3; 4; 5; 6] =
  [ Some ([(0, 0, false)], (0, 0));
    Some ([(1, 0, false)], (0, 0));
    Some ([(2, 0, false)], (1, 0));
    Some ([(2, 0, true)], (1, 0));
    Some ([(1, 0, true)], (1, 0));
    Some ([(0, 0, true)], (1, 1));
    Some ([(0, 0, false)], (1, 1)) ].
Proof. vm_compute. reflexivity. Qed.

(** With no ants nothing happens and nothing is counted. *)
Example no_ants :
  summary (simulate (mkConfig 20 20 0 (0, 0) (19, 19) (Q2Qc 0.02) (Q2Qc 1.0)) half 10) =
  Some ([], (0, 0)).
Proof. vm_compute. reflexivity. Qed.

(** ** Lists and subscripts *)

Lemma length_range (n : Z) : length (range n) = Z.to_nat n.
Proof. unfold range. now rewrite length_map, length_seq. Qed.

Lemma subscript_nonneg (len : nat) (i : Z) :
  0 <= i < Z.of_nat len -> subscript len i = Some (Z.to_nat i).
Proof.
  intros Hi. unfold subscript.
  destruct (0 <=? i) eqn:E1; [| lia].
  destruct (i <? Z.of_nat len) eqn:E2; [reflexivity | lia].
Qed.

Lemma length_replace {A : Type} (k : nat) (v : A) (l : list A) :
  length (replace k v l) = length l.
Proof.
  revert k. induction l as [| h t IH]; intros [| k]; simpl; auto.
Qed.

Lemma nth_error_replace_same {A : Type} (k : nat) (v : A) (l : list A) :
  (k < length l)%nat -> nth_error (replace k v l) k = Some v.
Proof.
  revert k. induction l as [| h t IH]; intros [| k] Hk; simpl in *; try lia; auto.
  apply IH. lia.
Qed.

Lemma nth_error_replace_other {A : Type} (k k' : nat) (v : A) (l : list A) :
  k <> k' -> nth_error (replace k v l) k' = nth_error l k'.
Proof.
  revert k k'. induction l as [| h t IH]; intros [| k] [| k'] Hk; simpl; auto; try lia.
Qed.

Lemma replace_In {A : Type} (k : nat) (v : A) (l : list A) (a : A) :
  In a (replace k v l) -> a = v \/ In a l.
Proof.
  revert k. induction l as [| h t IH]; intros [| k]; simpl; auto.
  - intros [H | H]; auto.
  - intros [H | H]; auto. destruct (IH _ H); auto.
Qed.

Lemma Forall_replace {A : Type} (P : A -> Prop) (k : nat) (v : A) (l : list A) :
  Forall P l -> P v -> Forall P (replace k v l).
Proof.
  intros Hl Hv. apply Forall_forall. intros a Ha.
  destruct (replace_In _ _ _ _ Ha) as [-> | Hin]; auto.
  rewrite Forall_forall in Hl. auto.
Qed.

Lemma getitem_nonneg {A : Type} (l : list A) (i : Z) :
  0 <= i < Z.of_nat (length l) -> getitem l i = nth_error l (Z.to_nat i).
Proof. intros Hi. unfold getitem. now rewrite subscript_nonneg. Qed.

Lemma setitem_nonneg {A : Type} (l : list A) (i : Z) (v : A) :
  0 <= i < Z.of_nat (length l) -> setitem l i v = Some (replace (Z.to_nat i) v l).
Proof. intros Hi. unfold setitem. now rewrite subscript_nonneg. Qed.

(** ** Cells of a well-shaped field *)

Lemma in_bounds_iff (cfg : Config) (x y : Z) :
  in_bounds cfg (x, y) = true <-> (0 <= x < WIDTH cfg /\ 0 <= y < HEIGHT cfg).
Proof.
  unfold in_bounds. simpl. rewrite !andb_true_iff. lia.
Qed.

Lemma pos_eqb_eq (p q : Z * Z) : pos_eqb p q = true <-> p = q.
Proof.
  destruct p as [a b], q as [c d]. unfold pos_eqb. simpl.
  rewrite andb_true_iff, !Z.eqb_eq. split.
  - intros [-> ->]. reflexivity.
  - intros E. inversion E. auto.
Qed.

Lemma pos_eqb_neq (p q : Z * Z) : pos_eqb p q = false <-> p <> q.
Proof.
  rewrite <- pos_eqb_eq. destruct (pos_eqb p q); split; congruence.
Qed.

Lemma pos_eqb_refl (p : Z * Z) : pos_eqb p p = true.
Proof. now apply pos_eqb_eq. Qed.

Lemma shaped_replace (cfg : Config) (ph : Field) (k : nat) (row : list Qc) :
  shaped cfg ph -> length row = Z.to_nat (WIDTH cfg) -> shaped cfg (replace k row ph).
Proof.
  intros [Hh Hw] Hrow. split.
  - now rewrite length_replace.
  - now apply Forall_replace.
Qed.

(** A subscript pair within bounds reads and writes the cell at list
    position [y], [x]; nothing raises. *)
Lemma cell_in_bounds (cfg : Config) (ph : Field) (x y : Z) :
  shaped cfg ph -> in_bounds cfg (x, y) = true ->
  exists row v,
    nth_error ph (Z.to_nat y) = Some row /\
    length row = Z.to_nat (WIDTH cfg) /\
    nth_error row (Z.to_nat x) = Some v /\
    cell ph x y = Some v /\
    forall f, update f ph x y =
              Some (replace (Z.to_nat y) (replace (Z.to_nat x) (f v) row) ph).
Proof.
  intros [Hh Hw] Hb. apply in_bounds_iff in Hb. destruct Hb as [Hx Hy].
  destruct (nth_error ph (Z.to_nat y)) as [row |] eqn:Hrow.
  2:{ apply nth_error_None in Hrow. lia. }
  assert (Hlen : length row = Z.to_nat (WIDTH cfg)).
  { rewrite Forall_forall in Hw. apply Hw. eapply nth_error_In; eauto. }
  destruct (nth_error row (Z.to_nat x)) as [v |] eqn:Hv.
  2:{ apply nth_error_None in Hv. lia. }
  exists row, v. repeat split; auto.
  - unfold cell. rewrite getitem_nonneg, Hrow by lia.
    now rewrite getitem_nonneg by lia.
  - intros f. unfold update. rewrite getitem_nonneg, Hrow by lia.
    rewrite getitem_nonneg, Hv by lia.
    rewrite setitem_nonneg by lia.
    now rewrite setitem_nonneg by lia.
Qed.

Lemma update_shaped (cfg : Config) (f : Qc -> Qc) (ph : Field) (x y : Z) :
  shaped cfg ph -> in_bounds cfg (x, y) = true ->
  exists ph', update f ph x y = Some ph' /\ shaped cfg ph'.
Proof.
  intros Hs Hb.
  destruct (cell_in_bounds cfg ph x y Hs Hb) as (row & v & Hrow & Hlen & Hv & Hc & Hu).
  eexists. split; [apply Hu |].
  apply shaped_replace; auto. now rewrite length_replace.
Qed.



(** ** Evaporation is a map over the field *)

Lemma map_from_0 {A : Type} (f : A -> A) (l : list A) : map_from f 0 l = map f l.
Proof. induction l as [| h t IH]; simpl; congruence. Qed.

Lemma map_from_all {A : Type} (f : A -> A) (a : nat) (l : list A) :
  (length l <= a)%nat -> map_from f a l = l.
Proof.
  revert a. induction l as [| h t IH]; intros [| a] Ha; simpl in *; try lia; auto.
  f_equal. apply IH. lia.
Qed.

Lemma map_from_replace {A : Type} (f : A -> A) (a : nat) (l : list A) (v : A) :
  nth_error l a = Some v ->
  map_from f (S a) (replace a (f v) l) = map_from f a l.
Proof.
  revert a. induction l as [| h t IH]; intros [| a] Hv; simpl in *; try discriminate.
  - inversion Hv; subst. reflexivity.
  - f_equal. apply IH. exact Hv.
Qed.

Lemma replace_replace {A : Type} (k : nat) (v w : A) (l : list A) :
  replace k w (replace k v l) = replace k w l.
Proof.
  revert k. induction l as [| h t IH]; intros [| k]; simpl; auto. now rewrite IH.
Qed.

Lemma replace_same {A : Type} (k : nat) (v : A) (l : list A) :
  nth_error l k = Some v -> replace k v l = l.
Proof.
  revert k. induction l as [| h t IH]; intros [| k] Hv; simpl in *; try discriminate.
  - now inversion Hv.
  - f_equal. now apply IH.
Qed.

Lemma evaporate_row_from (cfg : Config) (y : Z) (n : nat) :
  0 <= y < HEIGHT cfg ->
  forall (a : nat) (ph : Field) (row : list Qc),
    shaped cfg ph ->
    (a + n = Z.to_nat (WIDTH cfg))%nat ->
    nth_error ph (Z.to_nat y) = Some row ->
    evaporate_row cfg ph y (map Z.of_nat (seq a n)) =
    Some (replace (Z.to_nat y) (map_from (decay cfg) a row) ph).
Proof.
  intros Hy. induction n as [| n IH]; intros a ph row Hs Han Hrow.
  - simpl. f_equal. symmetry. apply replace_same. rewrite Hrow. f_equal.
    symmetry. apply map_from_all.
    destruct Hs as [_ Hw]. rewrite Forall_forall in Hw.
    rewrite (Hw row) by (eapply nth_error_In; eauto). lia.
  - simpl.
    assert (Hb : in_bounds cfg (Z.of_nat a, y) = true) by (apply in_bounds_iff; lia).
    destruct (cell_in_bounds cfg ph _ _ Hs Hb) as (row0 & v & Hrow0 & Hlen & Hv & _ & Hu).
    rewrite Hrow in Hrow0. inversion Hrow0; subst row0. clear Hrow0.
    rewrite Nat2Z.id in Hv, Hu.
    fold (decay cfg). rewrite Hu.
    rewrite (IH (S a) _ (replace a (decay cfg v) row)).
    + f_equal. rewrite replace_replace. f_equal. now apply map_from_replace.
    + apply shaped_replace; auto. now rewrite length_replace.
    + lia.
    + apply nth_error_replace_same. destruct Hs as [Hh _]. lia.
Qed.

Lemma evaporate_rows_from (cfg : Config) (n : nat) :
  forall (b : nat) (ph : Field),
    shaped cfg ph ->
    (b + n = Z.to_nat (HEIGHT cfg))%nat ->
    evaporate_rows cfg ph (map Z.of_nat (seq b n)) =
    Some (map_from (map (decay cfg)) b ph).
Proof.
  induction n as [| n IH]; intros b ph Hs Hbn.
  - simpl. f_equal. symmetry. apply map_from_all. destruct Hs. lia.
  - simpl.
    destruct (nth_error ph b) as [row |] eqn:Hrow.
    2:{ apply nth_error_None in Hrow. destruct Hs. lia. }
    pose proof (evaporate_row_from cfg (Z.of_nat b) (Z.to_nat (WIDTH cfg))) as Hr.
    rewrite Nat2Z.id in Hr. unfold range.
    rewrite (Hr ltac:(lia) O ph row Hs eq_refl Hrow).
    rewrite map_from_0.
    rewrite IH.
    + f_equal. now apply map_from_replace.
    + apply shaped_replace; auto. rewrite length_map.
      destruct Hs as [_ Hw]. rewrite Forall_forall in Hw.
      apply Hw. eapply nth_error_In; eauto.
    + lia.
Qed.

(** On a well-shaped field [evaporate] raises nothing and multiplies
    every cell by [1.0 - EVAPORATION]. *)
Lemma evaporate_map (cfg : Config) (ph : Field) :
  shaped cfg ph -> evaporate cfg ph = Some (map (map (decay cfg)) ph).
Proof.
  intros Hs. unfold evaporate, range.
  rewrite (evaporate_rows_from cfg _ O ph Hs eq_refl).
  now rewrite map_from_0.
Qed.

Lemma shaped_map (cfg : Config) (f : Qc -> Qc) (ph : Field) :
  shaped cfg ph -> shaped cfg (map (map f) ph).
Proof.
  intros [Hh Hw]. split.
  - now rewrite length_map.
  - rewrite Forall_forall in *. intros row Hrow.
    apply in_map_iff in Hrow. destruct Hrow as [r [<- Hr]].
    rewrite length_map. auto.
Qed.


(** ** The weighted draw of [move] *)

Lemma nonneg_cell (cfg : Config) (ph : Field) (x y : Z) (v : Qc) :
  shaped cfg ph -> nonneg ph -> in_bounds cfg (x, y) = true ->
  cell ph x y = Some v -> (0 <= v)%Qc.
Proof.
  intros Hs Hn Hb Hc.
  destruct (cell_in_bounds cfg ph x y Hs Hb) as (row & v0 & Hrow & _ & Hv & Hc0 & _).
  assert (v0 = v) by congruence. subst v0.
  unfold nonneg in Hn. rewrite Forall_forall in Hn.
  pose proof (Hn row (nth_error_In _ _ Hrow)) as Hr.
  rewrite Forall_forall in Hr. apply Hr. eapply nth_error_In; eauto.
Qed.

(** On a well-shaped field the first loop raises nothing; the
    candidates are the in-bounds neighbours in the order of the
    directions, one weight each. *)
Lemma neighbours_shaped (cfg : Config) (ph : Field) (x y : Z) (dirs : list (Z * Z)) :
  shaped cfg ph ->
  exists ws,
    neighbours cfg ph x y dirs =
      Some (filter (in_bounds cfg) (map (offset (x, y)) dirs), ws) /\
    length ws = length (filter (in_bounds cfg) (map (offset (x, y)) dirs)) /\
    (nonneg ph -> Forall (fun w => 1 <= w)%Qc ws).
Proof.
  intros Hs. induction dirs as [| [dx dy] rest IH].
  - exists []. simpl. repeat split; auto.
  - destruct IH as (ws & Hn & Hl & Hw). simpl.
    change (offset (x, y) (dx, dy)) with (x + dx, y + dy).
    destruct (in_bounds cfg (x + dx, y + dy)) eqn:Hb.
    + destruct (cell_in_bounds cfg ph _ _ Hs Hb) as (row & v & _ & _ & _ & Hc & _).
      rewrite Hc, Hn. eexists. split; [reflexivity |]. split.
      * simpl. now rewrite Hl.
      * intros Hnn. constructor; auto.
        pose proof (nonneg_cell cfg ph _ _ v Hs Hnn Hb Hc). qlra.
    + exists ws. auto.
Qed.

Lemma fold_left_Qcplus_ge (ws : list Qc) (a : Qc) :
  Forall (fun w => 1 <= w)%Qc ws -> (a <= fold_left Qcplus ws a)%Qc.
Proof.
  revert a. induction ws as [| w ws IH]; intros a Hw; simpl.
  - qlra.
  - inversion Hw; subst. specialize (IH (a + w)%Qc H2). qlra.
Qed.

Lemma sum_positive (ws : list Qc) :
  ws <> [] -> Forall (fun w => 1 <= w)%Qc ws -> (0 < sum ws)%Qc.
Proof.
  intros Hne Hw. destruct ws as [| w ws]; [congruence |].
  unfold sum. simpl. inversion Hw; subst.
  pose proof (fold_left_Qcplus_ge ws (0 + w)%Qc H2). qlra.
Qed.

Lemma map_fst_combine {A B : Type} (l : list A) (l' : list B) :
  length l = length l' -> map fst (combine l l') = l.
Proof.
  revert l'. induction l as [| a l IH]; intros [| b l'] Hl; simpl in *; try lia; auto.
  f_equal. apply IH. lia.
Qed.

Lemma map_snd_combine {A B : Type} (l : list A) (l' : list B) :
  length l = length l' -> map snd (combine l l') = l'.
Proof.
  revert l'. induction l as [| a l IH]; intros [| b l'] Hl; simpl in *; try lia; auto.
  f_equal. apply IH. lia.
Qed.

(** The loop only ever breaks at one of the candidates. *)
Lemma select_In (r cumulative : Qc) (cws : list ((Z * Z) * Qc)) (c : Z * Z) :
  select r cumulative cws = Some c -> In c (map fst cws).
Proof.
  revert cumulative. induction cws as [| [c0 w] rest IH]; intros cum H;
    cbn [select map fst] in *.
  - discriminate.
  - destruct (Qle_bool _ _).
    + inversion H. now left.
    + right. eapply IH; eauto.
Qed.

(** The loop breaks whenever the draw does not exceed the last
    cumulative weight. *)
Lemma select_breaks (r cumulative : Qc) (cws : list ((Z * Z) * Qc)) :
  cws <> [] ->
  (r <= fold_left Qcplus (map snd cws) cumulative)%Qc ->
  exists c, select r cumulative cws = Some c.
Proof.
  revert cumulative. induction cws as [| [c0 w] rest IH]; intros cum Hne Hr.
  - congruence.
  - cbn [select map snd fold_left] in *. destruct (Qle_bool _ _) eqn:E.
    + eauto.
    + destruct rest as [| cw rest'].
      * cbn [fold_left map] in Hr. apply Qle_bool_iff in Hr. congruence.
      * apply IH; [discriminate | exact Hr].
Qed.

Lemma uniform_le (total u : Qc) :
  (0 <= total)%Qc -> (u <= 1)%Qc -> (uniform 0 total u <= total)%Qc.
Proof.
  intros Ht Hu. unfold uniform.
  qc2q. assert (0 <= total * (1 - u))%Q by (apply Qmult_le_0_compat; lra).
  lra.
Qed.

Lemma adjacent_neq (p q : Z * Z) : adjacent p q -> q <> p.
Proof.
  destruct p as [x y]. unfold adjacent, DIRECTIONS, offset. simpl.
  intros [H | [H | [H | [H | []]]]]; subst q; intros E; inversion E; lia.
Qed.

Lemma filter_offsets (cfg : Config) (p c : Z * Z) :
  In c (filter (in_bounds cfg) (map (offset p) DIRECTIONS)) ->
  in_bounds cfg c = true /\ adjacent p c.
Proof. intros H. apply filter_In in H. destruct H. split; auto. Qed.

Lemma has_neighbour_candidates (cfg : Config) (p : Z * Z) :
  has_neighbour cfg p = true <->
  filter (in_bounds cfg) (map (offset p) DIRECTIONS) <> [].
Proof.
  unfold has_neighbour. rewrite existsb_exists. split.
  - intros (d & Hd & Hb) E.
    assert (Hin : In (offset p d) (filter (in_bounds cfg) (map (offset p) DIRECTIONS))).
    { apply filter_In. split; auto. now apply in_map. }
    rewrite E in Hin. destruct Hin.
  - intros Hne. destruct (filter _ _) as [| c l] eqn:E; [congruence |].
    assert (Hin : In c (filter (in_bounds cfg) (map (offset p) DIRECTIONS)))
      by (rewrite E; now left).
    apply filter_In in Hin. destruct Hin as [Hin Hb].
    apply in_map_iff in Hin. destruct Hin as (d & <- & Hd). eauto.
Qed.

(** [move] on a well-shaped field: nothing raises, one draw is
    consumed, and the position is kept or becomes an in-bounds
    orthogonal neighbour; [id] and [carrying] are not touched. *)
Lemma move_shaped (cfg : Config) (draws : nat -> Qc) (ant : Ant) (ph : Field) (rng : nat) :
  shaped cfg ph ->
  exists ant',
    move cfg draws ant ph rng = Some (ant', S rng) /\
    id ant' = id ant /\ carrying ant' = carrying ant /\
    (pos ant' = pos ant \/
     (in_bounds cfg (pos ant') = true /\ adjacent (pos ant) (pos ant'))).
Proof.
  intros Hs. unfold move. destruct (pos ant) as [x y] eqn:Hp.
  destruct (neighbours_shaped cfg ph x y DIRECTIONS Hs) as (ws & Hn & Hl & _).
  rewrite Hn.
  destruct (select _ _ _) as [c |] eqn:Hsel.
  - exists (set_pos ant c). repeat split; auto. right. simpl.
    apply select_In in Hsel. rewrite map_fst_combine in Hsel by auto.
    now apply filter_offsets.
  - exists ant. repeat split; auto.
Qed.

(** In exact arithmetic the loop always breaks: with a neighbour to go
    to, a non-negative field and a draw in [[0, 1]], the sum of the
    weights is the last value of [cumulative], the draw does not
    exceed it, and the ant moves to a neighbour.  Only the rounding of
    [Binary64] can make the loop run to its end. *)
Lemma move_moves (cfg : Config) (draws : nat -> Qc) (ant : Ant) (ph : Field) (rng : nat) :
  shaped cfg ph -> nonneg ph -> has_neighbour cfg (pos ant) = true ->
  (0 <= draws rng <= 1)%Qc ->
  exists ant',
    move cfg draws ant ph rng = Some (ant', S rng) /\
    in_bounds cfg (pos ant') = true /\ adjacent (pos ant) (pos ant') /\
    id ant' = id ant /\ carrying ant' = carrying ant.
Proof.
  intros Hs Hnn Hh Hu. unfold move. destruct (pos ant) as [x y] eqn:Hp.
  destruct (neighbours_shaped cfg ph x y DIRECTIONS Hs) as (ws & Hn & Hl & Hw).
  rewrite Hn. specialize (Hw Hnn).
  apply has_neighbour_candidates in Hh.
  set (cs := filter (in_bounds cfg) (map (offset (x, y)) DIRECTIONS)) in *.
  assert (Hws : ws <> []) by (destruct ws, cs; simpl in *; congruence).
  destruct (select_breaks (uniform 0 (sum ws) (draws rng)) 0%Qc (combine cs ws)) as [c Hc].
  - destruct cs, ws; simpl in *; congruence.
  - rewrite map_snd_combine by auto.
    apply uniform_le; [| tauto].
    pose proof (sum_positive ws Hws Hw) as Hpos. unfold sum in Hpos. qlra.
  - rewrite Hc. exists (set_pos ant c). cbn [set_pos pos id carrying].
    apply select_In in Hc. rewrite map_fst_combine in Hc by auto.
    apply filter_offsets in Hc. destruct Hc as [Hin Hadj]. splits; auto.
Qed.

(** ** One step of one ant *)

(** The four branches of [step], on a well-shaped field and for an
    ant that is at NEST or on the grid: nothing raises. *)
Lemma step_cases (cfg : Config) (draws : nat -> Qc) (ant : Ant) (ph : Field) (rng : nat) :
  shaped cfg ph -> placed cfg ant ->
  (carrying ant = false /\ pos ant = FOOD cfg /\
   step cfg draws ant ph rng = Some (set_carrying ant true, ph, rng))
  \/
  (carrying ant = false /\ pos ant <> FOOD cfg /\
   exists ant', move cfg draws ant ph rng = Some (ant', S rng) /\
                step cfg draws ant ph rng = Some (ant', ph, S rng))
  \/
  (carrying ant = true /\ pos ant = NEST cfg /\
   step cfg draws ant ph rng = Some (set_carrying ant false, ph, rng))
  \/
  (carrying ant = true /\ pos ant <> NEST cfg /\
   exists ant' ph', move cfg draws ant ph rng = Some (ant', S rng) /\
                    in_bounds cfg (pos ant') = true /\
                    deposit cfg ph (pos ant') = Some ph' /\
                    shaped cfg ph' /\
                    step cfg draws ant ph rng = Some (ant', ph', S rng)).
Proof.
  intros Hs Hpl. unfold step.
  destruct (move_shaped cfg draws ant ph rng Hs) as (ant' & Hm & _ & _ & Hpos).
  destruct (carrying ant) eqn:Hc; simpl.
  - destruct (pos_eqb (pos ant) (NEST cfg)) eqn:Hn.
    + right; right; left. apply pos_eqb_eq in Hn. auto.
    + right; right; right. apply pos_eqb_neq in Hn.
      assert (Hb : in_bounds cfg (pos ant') = true).
      { destruct Hpos as [-> | [Hb _]]; auto. destruct Hpl; congruence. }
      destruct (pos ant') as [x y] eqn:Hp'.
      destruct (update_shaped cfg (fun v => (v + DEPOSIT cfg)%Qc) ph x y Hs Hb)
        as (ph' & Hu & Hs').
      splits; auto. exists ant', ph'. rewrite Hm, Hp'.
      unfold deposit. simpl. rewrite Hu. auto.
  - destruct (pos_eqb (pos ant) (FOOD cfg)) eqn:Hf.
    + left. apply pos_eqb_eq in Hf. auto.
    + right; left. apply pos_eqb_neq in Hf. splits; auto.
      exists ant'. rewrite Hm. auto.
Qed.

(** What every step keeps: the shape of the field, the ant at NEST
    or on the grid, an ant on the grid on the grid, its identity; and
    it consumes at most one draw. *)
Lemma step_keeps (cfg : Config) (draws : nat -> Qc) (ant : Ant) (ph : Field) (rng : nat) :
  shaped cfg ph -> placed cfg ant ->
  exists ant' ph' rng',
    step cfg draws ant ph rng = Some (ant', ph', rng') /\
    shaped cfg ph' /\ placed cfg ant' /\
    (in_bounds cfg (pos ant) = true -> in_bounds cfg (pos ant') = true) /\
    id ant' = id ant /\ (rng <= rng' <= S rng)%nat.
Proof.
  intros Hs Hpl.
  destruct (move_shaped cfg draws ant ph rng Hs) as (am & Hm & Hid & _ & Hpos).
  assert (Hplm : placed cfg am).
  { destruct Hpos as [E | [Hb _]]; [| now right]. unfold placed. now rewrite E. }
  assert (Hbm : in_bounds cfg (pos ant) = true -> in_bounds cfg (pos am) = true).
  { destruct Hpos as [E | [Hb _]]; [now rewrite E | auto]. }
  destruct (step_cases cfg draws ant ph rng Hs Hpl)
    as [(_ & _ & H) | [(_ & _ & a' & Hm' & H) | [(_ & _ & H) | (_ & _ & a' & ph' & Hm' & _ & _ & Hs' & H)]]].
  - exists (set_carrying ant true), ph, rng. splits; auto.
  - rewrite Hm in Hm'. inversion Hm'; subst a'.
    exists am, ph, (S rng). splits; auto.
  - exists (set_carrying ant false), ph, rng. splits; auto.
  - rewrite Hm in Hm'. inversion Hm'; subst a'.
    exists am, ph', (S rng). splits; auto.
Qed.

(** ** The loop over the ants, the tick and the run *)

Lemma ants_loop_cons (cfg : Config) (draws : nat -> Qc) (ant : Ant) (rest : list Ant)
    (ph : Field) (st : Stats) (rng : nat) (r : list Ant * Field * Stats * nat) :
  ants_loop cfg draws (ant :: rest) ph st rng = Some r ->
  exists ant' ph' rng' rest',
    step cfg draws ant ph rng = Some (ant', ph', rng') /\
    ants_loop cfg draws rest ph' (record cfg (pos ant) ant' st) rng' =
      Some (rest', snd (fst (fst r)), snd (fst r), snd r) /\
    fst (fst (fst r)) = ant' :: rest'.
Proof.
  simpl. destruct (step cfg draws ant ph rng) as [[[ant' ph'] rng'] |] eqn:Hst;
    [| discriminate].
  destruct (ants_loop cfg draws rest ph' _ rng') as [[[[rest' ph''] st''] rng''] |] eqn:Hl;
    [| discriminate].
  intros H. inversion H; subst. simpl. exists ant', ph', rng', rest'. splits; auto.
Qed.

Lemma ants_loop_keeps (cfg : Config) (draws : nat -> Qc) (todo : list Ant) :
  forall (ph : Field) (st : Stats) (rng : nat),
    shaped cfg ph -> Forall (placed cfg) todo ->
    exists done ph' st' rng',
      ants_loop cfg draws todo ph st rng = Some (done, ph', st', rng') /\
      shaped cfg ph' /\ Forall (placed cfg) done /\
      length done = length todo /\
      (Forall (fun a => in_bounds cfg (pos a) = true) todo ->
       Forall (fun a => in_bounds cfg (pos a) = true) done) /\
      (rng <= rng' <= rng + length todo)%nat.
Proof.
  induction todo as [| ant rest IH]; intros ph st rng Hs Hpl.
  - exists [], ph, st, rng. simpl. splits; auto; lia.
  - inversion Hpl as [| ? ? Ha Hrest]; subst.
    destruct (step_keeps cfg draws ant ph rng Hs Ha)
      as (ant' & ph' & rng' & Hst & Hs' & Hpl' & Hb' & _ & Hr).
    destruct (IH ph' (record cfg (pos ant) ant' st) rng' Hs' Hrest)
      as (done & ph'' & st'' & rng'' & Hl & Hs'' & Hpl'' & Hlen & Hb'' & Hr').
    exists (ant' :: done), ph'', st'', rng''. simpl. rewrite Hst, Hl.
    splits; auto; try lia.
    intros Hall. inversion Hall; subst. constructor; auto.
Qed.

Lemma tick_keeps (cfg : Config) (draws : nat -> Qc) (s : Sim) :
  shaped cfg (pheromones s) -> Forall (placed cfg) (ants s) ->
  exists s',
    tick cfg draws s = Some s' /\
    shaped cfg (pheromones s') /\ Forall (placed cfg) (ants s') /\
    length (ants s') = length (ants s) /\
    (Forall (fun a => in_bounds cfg (pos a) = true) (ants s) ->
     Forall (fun a => in_bounds cfg (pos a) = true) (ants s')) /\
    (rng s <= rng s' <= rng s + length (ants s))%nat.
Proof.
  intros Hs Hpl. unfold tick.
  destruct (ants_loop_keeps cfg draws (ants s) (pheromones s) (stats s) (rng s) Hs Hpl)
    as (done & ph' & st' & rng' & Hl & Hs' & Hpl' & Hlen & Hb & Hr).
  rewrite Hl, (evaporate_map cfg ph' Hs').
  eexists. split; [reflexivity |]. simpl. splits; auto; try lia.
  now apply shaped_map.
Qed.

Lemma ticks_keeps (cfg : Config) (draws : nat -> Qc) (n : nat) :
  forall s : Sim,
    shaped cfg (pheromones s) -> Forall (placed cfg) (ants s) ->
    exists s',
      ticks cfg draws n s = Some s' /\
      shaped cfg (pheromones s') /\ Forall (placed cfg) (ants s') /\
      length (ants s') = length (ants s) /\
      (Forall (fun a => in_bounds cfg (pos a) = true) (ants s) ->
       Forall (fun a => in_bounds cfg (pos a) = true) (ants s')) /\
      (rng s <= rng s' <= rng s + n * length (ants s))%nat.
Proof.
  induction n as [| n IH]; intros s Hs Hpl.
  - exists s. simpl. splits; auto; lia.
  - destruct (tick_keeps cfg draws s Hs Hpl) as (s1 & Ht & Hs1 & Hpl1 & Hlen1 & Hb1 & Hr1).
    destruct (IH s1 Hs1 Hpl1) as (s' & Hts & Hs' & Hpl' & Hlen' & Hb' & Hr').
    exists s'. simpl. rewrite Ht, Hts. splits; auto; try lia.
Qed.

Lemma initial_shaped (cfg : Config) : shaped cfg (pheromones (initial cfg)).
Proof.
  split; simpl.
  - now rewrite length_map, length_range.
  - apply Forall_forall. intros row Hrow. apply in_map_iff in Hrow.
    destruct Hrow as (y & <- & _). now rewrite length_map, length_range.
Qed.

Lemma initial_placed (cfg : Config) : Forall (placed cfg) (ants (initial cfg)).
Proof.
  apply Forall_forall. intros a Ha. simpl in Ha. apply in_map_iff in Ha.
  destruct Ha as (i & <- & _). now left.
Qed.

Lemma initial_ants (cfg : Config) :
  length (ants (initial cfg)) = Z.to_nat (ANT_COUNT cfg) /\
  Forall (fun a => pos a = NEST cfg /\ carrying a = false) (ants (initial cfg)).
Proof.
  split; simpl.
  - now rewrite length_map, length_range.
  - apply Forall_forall. intros a Ha. apply in_map_iff in Ha.
    destruct Ha as (i & <- & _). auto.
Qed.

(** Every run completes: no subscript of [simulate] ever raises, at
    any constants. *)
Lemma simulate_total (cfg : Config) (draws : nat -> Qc) (steps : Z) :
  exists s,
    simulate cfg draws steps = Some s /\
    shaped cfg (pheromones s) /\
    Forall (placed cfg) (ants s) /\
    length (ants s) = Z.to_nat (ANT_COUNT cfg) /\
    (rng s <= Z.to_nat steps * Z.to_nat (ANT_COUNT cfg))%nat.
Proof.
  destruct (ticks_keeps cfg draws (Z.to_nat steps) (initial cfg)
              (initial_shaped cfg) (initial_placed cfg))
    as (s & Ht & Hs & Hpl & Hlen & _ & Hr).
  destruct (initial_ants cfg) as [Hn _].
  exists s. unfold simulate. splits; auto; try congruence.
  rewrite Hn in Hr. simpl in Hr. lia.
Qed.

(** ** What [move] and [step] do on any field *)

Lemma neighbours_candidates (cfg : Config) (ph : Field) (x y : Z) (dirs : list (Z * Z))
    (cs : list (Z * Z)) (ws : list Qc) :
  neighbours cfg ph x y dirs = Some (cs, ws) ->
  cs = filter (in_bounds cfg) (map (offset (x, y)) dirs) /\ length ws = length cs.
Proof.
  revert cs ws. induction dirs as [| [dx dy] rest IH]; intros cs ws H; simpl in *.
  - inversion H. auto.
  - change (offset (x, y) (dx, dy)) with (x + dx, y + dy).
    destruct (in_bounds cfg (x + dx, y + dy)); [| auto].
    destruct (cell ph (x + dx) (y + dy)); [| discriminate].
    destruct (neighbours cfg ph x y rest) as [[cs' ws'] |]; [| discriminate].
    inversion H; subst. destruct (IH cs' ws' eq_refl) as [-> Hl].
    simpl. auto.
Qed.

Lemma neighbours_none (cfg : Config) (ph : Field) (x y : Z) (dirs : list (Z * Z)) :
  (forall d, In d dirs -> in_bounds cfg (offset (x, y) d) = false) ->
  neighbours cfg ph x y dirs = Some ([], []).
Proof.
  induction dirs as [| [dx dy] rest IH]; intros H; simpl; auto.
  pose proof (H (dx, dy) (or_introl eq_refl)) as Hd.
  change (offset (x, y) (dx, dy)) with (x + dx, y + dy) in Hd. rewrite Hd.
  apply IH. intros d Hin. apply H. now right.
Qed.

Lemma has_neighbour_false (cfg : Config) (p : Z * Z) :
  has_neighbour cfg p = false ->
  forall d, In d DIRECTIONS -> in_bounds cfg (offset p d) = false.
Proof.
  unfold has_neighbour. intros H d Hd.
  destruct (in_bounds cfg (offset p d)) eqn:E; auto.
  assert (existsb (fun d => in_bounds cfg (offset p d)) DIRECTIONS = true)
    by (apply existsb_exists; eauto).
  congruence.
Qed.

(** A cell of the grid has a neighbour on the grid as soon as the
    grid is more than one cell. *)
Lemma has_neighbour_grid (cfg : Config) (p : Z * Z) :
  in_bounds cfg p = true ->
  (has_neighbour cfg p = true <-> (2 <= WIDTH cfg \/ 2 <= HEIGHT cfg)).
Proof.
  destruct p as [x y]. intros Hb. apply in_bounds_iff in Hb.
  unfold has_neighbour, DIRECTIONS, offset. simpl.
  rewrite !orb_true_iff. unfold in_bounds. simpl.
  rewrite !andb_true_iff, !Z.leb_le, !Z.ltb_lt. split.
  - intros H. lia.
  - intros H. destruct (Z.eq_dec x 0), (Z.eq_dec y 0); lia.
Qed.

Lemma move_inv (cfg : Config) (draws : nat -> Qc) (ant ant' : Ant) (ph : Field)
    (rng rng' : nat) :
  move cfg draws ant ph rng = Some (ant', rng') ->
  rng' = S rng /\
  (ant' = ant \/
   exists c, ant' = set_pos ant c /\ in_bounds cfg c = true /\ adjacent (pos ant) c).
Proof.
  unfold move. destruct (pos ant) as [x y] eqn:Hp.
  destruct (neighbours cfg ph x y DIRECTIONS) as [[cs ws] |] eqn:Hn; [| discriminate].
  destruct (neighbours_candidates _ _ _ _ _ _ _ Hn) as [Hcs Hl].
  destruct (select _ _ _) as [c |] eqn:Hsel; intros H; inversion H; subst; split; auto.
  right. exists c. split; auto.
  apply select_In in Hsel. rewrite map_fst_combine in Hsel by auto.
  now apply filter_offsets.
Qed.

(** The agent of every step, whatever the field: a transition tick
    changes [carrying] and nothing else; any other tick keeps
    [carrying] and goes through [move]; the field is kept or gets one
    deposit at the position after the move. *)
Lemma step_inv (cfg : Config) (draws : nat -> Qc) (ant ant' : Ant) (ph ph' : Field)
    (rng rng' : nat) :
  step cfg draws ant ph rng = Some (ant', ph', rng') ->
  (carrying ant = false /\ pos ant = FOOD cfg /\
   ant' = set_carrying ant true /\ ph' = ph /\ rng' = rng)
  \/
  (carrying ant = false /\ pos ant <> FOOD cfg /\
   move cfg draws ant ph rng = Some (ant', rng') /\ ph' = ph)
  \/
  (carrying ant = true /\ pos ant = NEST cfg /\
   ant' = set_carrying ant false /\ ph' = ph /\ rng' = rng)
  \/
  (carrying ant = true /\ pos ant <> NEST cfg /\
   move cfg draws ant ph rng = Some (ant', rng') /\
   deposit cfg ph (pos ant') = Some ph').
Proof.
  unfold step. destruct (carrying ant) eqn:Hc; simpl.
  - destruct (pos_eqb (pos ant) (NEST cfg)) eqn:Hn.
    + intros H. inversion H; subst. apply pos_eqb_eq in Hn.
      right; right; left. auto.
    + destruct (move cfg draws ant ph rng) as [[am rm] |] eqn:Hm; [| discriminate].
      destruct (pos am) as [x y] eqn:Hp.
      destruct (update _ ph x y) as [phu |] eqn:Hu; [| discriminate].
      intros H. inversion H; subst. apply pos_eqb_neq in Hn.
      right; right; right. splits; auto.
      unfold deposit. now rewrite Hp.
  - destruct (pos_eqb (pos ant) (FOOD cfg)) eqn:Hf.
    + intros H. inversion H; subst. apply pos_eqb_eq in Hf. left. auto.
    + destruct (move cfg draws ant ph rng) as [[am rm] |] eqn:Hm; [| discriminate].
      intros H. inversion H; subst. apply pos_eqb_neq in Hf.
      right; left. auto.
Qed.

Lemma move_carrying (cfg : Config) (draws : nat -> Qc) (ant ant' : Ant) (ph : Field)
    (rng rng' : nat) :
  move cfg draws ant ph rng = Some (ant', rng') ->
  carrying ant' = carrying ant /\ id ant' = id ant.
Proof.
  intros H. apply move_inv in H. destruct H as [_ [-> | (c & -> & _)]]; auto.
Qed.

(** A property of ants that every step keeps holds of all ants after
    the loop, after the tick, after the run. *)
Lemma ants_loop_Forall (cfg : Config) (draws : nat -> Qc) (P : Ant -> Prop) :
  (forall ant ph rng ant' ph' rng',
      P ant -> step cfg draws ant ph rng = Some (ant', ph', rng') -> P ant') ->
  forall todo ph st rng done ph' st' rng',
    Forall P todo ->
    ants_loop cfg draws todo ph st rng = Some (done, ph', st', rng') ->
    Forall P done.
Proof.
  intros Hstep. induction todo as [| ant rest IH]; intros ph st rng done ph' st' rng' HP H.
  - simpl in H. inversion H. constructor.
  - apply ants_loop_cons in H. simpl in H.
    destruct H as (a' & ph1 & rng1 & rest' & Hst & Hl & ->).
    inversion HP; subst. constructor; eauto.
Qed.

Lemma ticks_Forall (cfg : Config) (draws : nat -> Qc) (P : Ant -> Prop) :
  (forall ant ph rng ant' ph' rng',
      P ant -> step cfg draws ant ph rng = Some (ant', ph', rng') -> P ant') ->
  forall n s s',
    Forall P (ants s) -> ticks cfg draws n s = Some s' -> Forall P (ants s').
Proof.
  intros Hstep. induction n as [| n IH]; intros s s' HP H; simpl in H.
  - inversion H; subst. exact HP.
  - destruct (tick cfg draws s) as [s1 |] eqn:Ht; [| discriminate].
    apply (IH s1 s'); auto.
    unfold tick in Ht.
    destruct (ants_loop cfg draws (ants s) (pheromones s) (stats s) (rng s))
      as [[[[done ph'] st'] rng'] |] eqn:Hl; [| discriminate].
    destruct (evaporate cfg ph'); [| discriminate].
    inversion Ht; subst. simpl.
    eapply ants_loop_Forall; eauto.
Qed.

Lemma initial_nonneg (cfg : Config) : nonneg (pheromones (initial cfg)).
Proof.
  apply Forall_forall. intros row Hrow. simpl in Hrow.
  apply in_map_iff in Hrow. destruct Hrow as (y & <- & _).
  apply Forall_forall. intros v Hv. apply in_map_iff in Hv.
  destruct Hv as (x & <- & _). discriminate.
Qed.

(** ** Deposits and evaporations keep the field non-negative *)

Lemma update_inv (f : Qc -> Qc) (ph ph' : Field) (x y : Z) :
  update f ph x y = Some ph' ->
  exists i j row v,
    nth_error ph i = Some row /\ nth_error row j = Some v /\
    ph' = replace i (replace j (f v) row) ph.
Proof.
  unfold update, getitem, setitem.
  destruct (subscript (length ph) y) as [i |]; [| discriminate].
  destruct (nth_error ph i) as [row |] eqn:Hrow; [| discriminate].
  destruct (subscript (length row) x) as [j |]; [| discriminate].
  destruct (nth_error row j) as [v |] eqn:Hv; [| discriminate].
  intros H. inversion H. exists i, j, row, v. auto.
Qed.

Lemma update_keeps_shape (cfg : Config) (f : Qc -> Qc) (ph ph' : Field) (x y : Z) :
  shaped cfg ph -> update f ph x y = Some ph' -> shaped cfg ph'.
Proof.
  intros Hs Hu. apply update_inv in Hu.
  destruct Hu as (i & j & row & v & Hrow & Hv & ->).
  apply shaped_replace; auto. rewrite length_replace.
  destruct Hs as [_ Hw]. rewrite Forall_forall in Hw.
  apply Hw. eapply nth_error_In; eauto.
Qed.

Lemma update_keeps_nonneg (f : Qc -> Qc) (ph ph' : Field) (x y : Z) :
  (forall v, (0 <= v)%Qc -> (0 <= f v)%Qc) ->
  nonneg ph -> update f ph x y = Some ph' -> nonneg ph'.
Proof.
  intros Hf Hn Hu. apply update_inv in Hu.
  destruct Hu as (i & j & row & v & Hrow & Hv & ->).
  unfold nonneg in *.
  assert (Hr : Forall (fun v => 0 <= v)%Qc row).
  { rewrite Forall_forall in Hn. apply Hn. eapply nth_error_In; eauto. }
  apply Forall_replace; auto. apply Forall_replace; auto.
  apply Hf. rewrite Forall_forall in Hr. apply Hr. eapply nth_error_In; eauto.
Qed.

Lemma map_keeps_nonneg (f : Qc -> Qc) (ph : Field) :
  (forall v, (0 <= v)%Qc -> (0 <= f v)%Qc) -> nonneg ph -> nonneg (map (map f) ph).
Proof.
  intros Hf Hn. unfold nonneg in *. rewrite Forall_forall in *.
  intros row Hrow. apply in_map_iff in Hrow. destruct Hrow as (r & <- & Hr).
  specialize (Hn r Hr). rewrite Forall_forall in *.
  intros v Hv. apply in_map_iff in Hv. destruct Hv as (w & <- & Hw). auto.
Qed.

Lemma decay_nonneg (cfg : Config) (v : Qc) :
  (EVAPORATION cfg <= 1)%Qc -> (0 <= v)%Qc -> (0 <= decay cfg v)%Qc.
Proof.
  intros He Hv. unfold decay. qc2q.
  apply Qmult_le_0_compat; lra.
Qed.

Lemma deposit_nonneg (cfg : Config) (v : Qc) :
  (0 <= DEPOSIT cfg)%Qc -> (0 <= v)%Qc -> (0 <= v + DEPOSIT cfg)%Qc.
Proof. intros. qlra. Qed.

Lemma apply_op_keeps (cfg : Config) (ph ph' : Field) (o : FieldOp) :
  (0 <= DEPOSIT cfg)%Qc -> (EVAPORATION cfg <= 1)%Qc ->
  shaped cfg ph -> nonneg ph -> apply_op cfg ph o = Some ph' ->
  shaped cfg ph' /\ nonneg ph'.
Proof.
  intros Hd He Hs Hn H. destruct o as [x y |]; simpl in H.
  - split.
    + eapply update_keeps_shape; eauto.
    + eapply update_keeps_nonneg; [| exact Hn | exact H].
      intros v. now apply deposit_nonneg.
  - rewrite (evaporate_map cfg ph Hs) in H. inversion H; subst. split.
    + now apply shaped_map.
    + apply map_keeps_nonneg; auto. intros v. now apply decay_nonneg.
Qed.

Lemma apply_ops_keeps (cfg : Config) (os : list FieldOp) :
  (0 <= DEPOSIT cfg)%Qc -> (EVAPORATION cfg <= 1)%Qc ->
  forall ph ph',
    shaped cfg ph -> nonneg ph -> apply_ops cfg ph os = Some ph' ->
    shaped cfg ph' /\ nonneg ph'.
Proof.
  intros Hd He. induction os as [| o os IH]; intros ph ph' Hs Hn H; simpl in H.
  - inversion H; subst. auto.
  - destruct (apply_op cfg ph o) as [ph1 |] eqn:Ho; [| discriminate].
    destruct (apply_op_keeps cfg ph ph1 o Hd He Hs Hn Ho) as [Hs1 Hn1].
    eauto.
Qed.

Lemma apply_ops_total (cfg : Config) (os : list FieldOp) :
  Forall (fun o => match o with
                   | Deposit x y => in_bounds cfg (x, y) = true
                   | EvaporateAll => True
                   end) os ->
  forall ph, shaped cfg ph -> exists ph', apply_ops cfg ph os = Some ph'.
Proof.
  induction os as [| o os IH]; intros Hos ph Hs; simpl.
  - eauto.
  - inversion Hos as [| ? ? Ho Hrest]; subst.
    assert (exists ph1, apply_op cfg ph o = Some ph1 /\ shaped cfg ph1) as (ph1 & H1 & Hs1).
    { destruct o as [x y |]; simpl.
      - now apply update_shaped.
      - rewrite (evaporate_map cfg ph Hs). eexists. split; eauto. now apply shaped_map. }
    rewrite H1. auto.
Qed.

Lemma Forall_firstn {A : Type} (P : A -> Prop) (k : nat) (l : list A) :
  Forall P l -> Forall P (firstn k l).
Proof.
  revert k. induction l as [| a l IH]; intros [| k] H; simpl; auto.
  inversion H; subst. constructor; auto.
Qed.

(** The field of a step, a loop over the ants, a tick, a run: kept,
    or changed by deposits and evaporations only. *)
Lemma step_field (cfg : Config) (draws : nat -> Qc) (ant ant' : Ant) (ph ph' : Field)
    (rng rng' : nat) :
  step cfg draws ant ph rng = Some (ant', ph', rng') ->
  ph' = ph \/ deposit cfg ph (pos ant') = Some ph'.
Proof.
  intros H. apply step_inv in H.
  destruct H as [(_ & _ & _ & -> & _) | [(_ & _ & _ & ->) | [(_ & _ & _ & -> & _) | (_ & _ & _ & Hd)]]];
    auto.
Qed.

Lemma ants_loop_nonneg (cfg : Config) (draws : nat -> Qc) :
  (0 <= DEPOSIT cfg)%Qc ->
  forall todo ph st rng done ph' st' rng',
    nonneg ph ->
    ants_loop cfg draws todo ph st rng = Some (done, ph', st', rng') ->
    nonneg ph'.
Proof.
  intros Hd. induction todo as [| ant rest IH]; intros ph st rng done ph' st' rng' Hn H.
  - simpl in H. inversion H; subst. exact Hn.
  - apply ants_loop_cons in H. simpl in H.
    destruct H as (a' & ph1 & rng1 & rest' & Hst & Hl & _).
    eapply IH; [| exact Hl].
    apply step_field in Hst. destruct Hst as [-> | Hdep]; auto.
    unfold deposit in Hdep.
    eapply update_keeps_nonneg; [| exact Hn | exact Hdep].
    intros v. now apply deposit_nonneg.
Qed.

Lemma ticks_nonneg (cfg : Config) (draws : nat -> Qc) :
  (0 <= DEPOSIT cfg)%Qc -> (EVAPORATION cfg <= 1)%Qc ->
  forall n s s',
    shaped cfg (pheromones s) -> Forall (placed cfg) (ants s) ->
    nonneg (pheromones s) -> ticks cfg draws n s = Some s' ->
    nonneg (pheromones s').
Proof.
  intros Hd He. induction n as [| n IH]; intros s s' Hs Hpl Hn H; simpl in H.
  - inversion H; subst. exact Hn.
  - destruct (tick_keeps cfg draws s Hs Hpl) as (s1 & Ht & Hs1 & Hpl1 & _).
    rewrite Ht in H. apply (IH s1 s' Hs1 Hpl1); auto.
    unfold tick in Ht.
    destruct (ants_loop cfg draws (ants s) (pheromones s) (stats s) (rng s))
      as [[[[done ph'] st'] rng'] |] eqn:Hl; [| discriminate].
    pose proof (ants_loop_nonneg cfg draws Hd _ _ _ _ _ _ _ _ Hn Hl) as Hn'.
    destruct (ants_loop_keeps cfg draws (ants s) (pheromones s) (stats s) (rng s) Hs Hpl)
      as (d2 & p2 & s2 & r2 & Hl2 & Hs2 & _).
    rewrite Hl in Hl2. inversion Hl2; subst.
    rewrite (evaporate_map cfg p2 Hs2) in Ht. inversion Ht; subst. simpl.
    apply map_keeps_nonneg; auto. intros v. now apply decay_nonneg.
Qed.

(** ** Total pheromone *)













(** ** The run as a function of the draws *)

Lemma move_ext (cfg : Config) (d1 d2 : nat -> Qc) (ant : Ant) (ph : Field) (rng : nat) :
  d1 rng = d2 rng -> move cfg d1 ant ph rng = move cfg d2 ant ph rng.
Proof. intros E. unfold move. now rewrite E. Qed.

Lemma step_ext (cfg : Config) (d1 d2 : nat -> Qc) (ant : Ant) (ph : Field) (rng : nat) :
  d1 rng = d2 rng -> step cfg d1 ant ph rng = step cfg d2 ant ph rng.
Proof. intros E. unfold step. now rewrite (move_ext cfg d1 d2 ant ph rng E). Qed.

(** A step consumes no draw or the next one. *)
Lemma step_rng (cfg : Config) (draws : nat -> Qc) (ant ant' : Ant) (ph ph' : Field)
    (rng rng' : nat) :
  step cfg draws ant ph rng = Some (ant', ph', rng') -> rng' = rng \/ rng' = S rng.
Proof.
  intros H. apply step_inv in H.
  destruct H as [(_ & _ & _ & _ & ->) | [(_ & _ & Hm & _) | [(_ & _ & _ & _ & ->) | (_ & _ & Hm & _)]]];
    auto; apply move_inv in Hm; destruct Hm; auto.
Qed.

Lemma ants_loop_len (cfg : Config) (draws : nat -> Qc) (todo : list Ant) :
  forall ph st rng done ph' st' rng',
    ants_loop cfg draws todo ph st rng = Some (done, ph', st', rng') ->
    length done = length todo /\ (rng <= rng' <= rng + length todo)%nat.
Proof.
  induction todo as [| ant rest IH]; intros ph st rng done ph' st' rng' H.
  - simpl in H. inversion H; subst. simpl. lia.
  - apply ants_loop_cons in H. simpl in H.
    destruct H as (a' & ph1 & rng1 & rest' & Hst & Hl & ->).
    apply step_rng in Hst. destruct (IH _ _ _ _ _ _ _ Hl) as [Hlen Hr].
    simpl. lia.
Qed.

Lemma tick_len (cfg : Config) (draws : nat -> Qc) (s s' : Sim) :
  tick cfg draws s = Some s' ->
  length (ants s') = length (ants s) /\
  (rng s <= rng s' <= rng s + length (ants s))%nat.
Proof.
  unfold tick.
  destruct (ants_loop cfg draws (ants s) (pheromones s) (stats s) (rng s))
    as [[[[done ph'] st'] rng'] |] eqn:Hl; [| discriminate].
  destruct (evaporate cfg ph'); [| discriminate].
  intros H. inversion H; subst. simpl. eapply ants_loop_len; eauto.
Qed.

Lemma ants_loop_ext (cfg : Config) (d1 d2 : nat -> Qc) (todo : list Ant) :
  forall ph st rng,
    (forall i, (rng <= i < rng + length todo)%nat -> d1 i = d2 i) ->
    ants_loop cfg d1 todo ph st rng = ants_loop cfg d2 todo ph st rng.
Proof.
  induction todo as [| ant rest IH]; intros ph st rng H; simpl.
  - reflexivity.
  - rewrite <- (step_ext cfg d1 d2 ant ph rng) by (apply H; simpl; lia).
    destruct (step cfg d1 ant ph rng) as [[[a' ph'] rng'] |] eqn:Hst; [| reflexivity].
    apply step_rng in Hst.
    rewrite (IH ph' (record cfg (pos ant) a' st) rng'); [reflexivity |].
    intros i Hi. apply H. simpl. lia.
Qed.

Lemma tick_ext (cfg : Config) (d1 d2 : nat -> Qc) (s : Sim) :
  (forall i, (rng s <= i < rng s + length (ants s))%nat -> d1 i = d2 i) ->
  tick cfg d1 s = tick cfg d2 s.
Proof. intros H. unfold tick. now rewrite (ants_loop_ext cfg d1 d2). Qed.

Lemma ticks_ext (cfg : Config) (d1 d2 : nat -> Qc) (n : nat) :
  forall s,
    (forall i, (rng s <= i < rng s + n * length (ants s))%nat -> d1 i = d2 i) ->
    ticks cfg d1 n s = ticks cfg d2 n s.
Proof.
  induction n as [| n IH]; intros s H; simpl.
  - reflexivity.
  - rewrite <- (tick_ext cfg d1 d2 s) by (intros i Hi; apply H; simpl; lia).
    destruct (tick cfg d1 s) as [s1 |] eqn:Ht; [| reflexivity].
    apply tick_len in Ht. destruct Ht as [Hlen Hr].
    apply IH. intros i Hi. apply H. rewrite Hlen in Hi. simpl. lia.
Qed.

(** ** The counters of the clock *)

Lemma count_app {A : Type} (f : A -> bool) (l l' : list A) :
  count f (l ++ l') = count f l + count f l'.
Proof. unfold count. rewrite filter_app, length_app. lia. Qed.

Lemma count_cons {A : Type} (f : A -> bool) (a : A) (l : list A) :
  count f (a :: l) = (if f a then 1 else 0) + count f l.
Proof. unfold count. simpl. destruct (f a); simpl length; lia. Qed.

Lemma record_counts (cfg : Config) (before : Z * Z) (ant : Ant) (st : Stats) :
  found_food (record cfg before ant st) =
    found_food st + (if reached_food cfg before ant then 1 else 0) /\
  returned (record cfg before ant st) =
    returned st + (if reached_nest cfg before ant then 1 else 0).
Proof.
  unfold record.
  destruct (reached_food cfg before ant), (reached_nest cfg before ant); simpl; lia.
Qed.

(** The loop adds to each counter the number of ants that pass its
    test; and the snapshots are those of one call of [step] each. *)
Lemma ants_loop_stats (cfg : Config) (draws : nat -> Qc) (todo : list Ant) :
  forall ph st rng done ph' st' rng',
    ants_loop cfg draws todo ph st rng = Some (done, ph', st', rng') ->
    found_food st' = found_food st + count (counts_food cfg) (combine todo done) /\
    returned st' = returned st + count (counts_nest cfg) (combine todo done) /\
    Forall (stepped cfg draws) (combine todo done).
Proof.
  induction todo as [| ant rest IH]; intros ph st rng done ph' st' rng' H.
  - simpl in H. inversion H; subst. simpl. unfold count. simpl. splits; auto; lia.
  - apply ants_loop_cons in H. simpl in H.
    destruct H as (a' & ph1 & rng1 & rest' & Hst & Hl & ->).
    destruct (IH _ _ _ _ _ _ _ Hl) as (Hf & Hr & Hall).
    destruct (record_counts cfg (pos ant) a' st) as [Hf1 Hr1].
    cbn [combine]. rewrite !count_cons.
    change (counts_food cfg (ant, a')) with (reached_food cfg (pos ant) a').
    change (counts_nest cfg (ant, a')) with (reached_nest cfg (pos ant) a').
    splits; try lia.
    constructor; auto. exists ph, rng, ph1, rng1. exact Hst.
Qed.

Lemma ticks_observe (cfg : Config) (draws : nat -> Qc) (n : nat) :
  forall s s',
    ticks cfg draws n s = Some s' ->
    exists l,
      observe cfg draws n s = Some l /\
      length l = (n * length (ants s))%nat /\
      found_food (stats s') = found_food (stats s) + count (counts_food cfg) l /\
      returned (stats s') = returned (stats s) + count (counts_nest cfg) l /\
      Forall (stepped cfg draws) l.
Proof.
  induction n as [| n IH]; intros s s' H; simpl in H.
  - inversion H; subst. exists []. simpl. unfold count. simpl. splits; auto; lia.
  - destruct (tick cfg draws s) as [s1 |] eqn:Ht; [| discriminate].
    destruct (IH s1 s' H) as (l & Hobs & Hlen & Hf & Hr & Hall).
    destruct (tick_len cfg draws s s1 Ht) as [Hlen1 _].
    unfold tick in Ht.
    destruct (ants_loop cfg draws (ants s) (pheromones s) (stats s) (rng s))
      as [[[[done ph'] st'] rng'] |] eqn:Hl; [| discriminate].
    destruct (ants_loop_stats cfg draws _ _ _ _ _ _ _ _ Hl) as (Hf1 & Hr1 & Hall1).
    destruct (evaporate cfg ph') as [phe |] eqn:Hev; [| discriminate].
    inversion Ht; subst s1. cbn [ants stats] in *.
    exists (combine (ants s) done ++ l).
    cbn [observe]. unfold tick. rewrite Hl, Hev. cbn [ants].
    rewrite Hobs. splits; auto.
    + rewrite length_app, length_combine, Hlen. cbn [ants] in Hlen1.
      rewrite Hlen1, Nat.min_id. simpl. lia.
    + rewrite count_app. lia.
    + rewrite count_app. lia.
    + apply Forall_app. split; auto.
Qed.

(** What the two tests of the clock see of one call of [step]: a test
    passes only when the agent moved onto the cell from a neighbouring
    one, in the state it keeps; on a transition tick the agent does
    not move and neither test passes. *)
Lemma stepped_facts (cfg : Config) (draws : nat -> Qc) (ba : Ant * Ant) :
  stepped cfg draws ba ->
  (counts_food cfg ba = true ->
   searching (fst ba) /\ searching (snd ba) /\
   pos (snd ba) = FOOD cfg /\ adjacent (pos (fst ba)) (pos (snd ba))) /\
  (counts_nest cfg ba = true ->
   returning (fst ba) /\ returning (snd ba) /\
   pos (snd ba) = NEST cfg /\ adjacent (pos (fst ba)) (pos (snd ba))) /\
  (picked_up ba = true ->
   pos (fst ba) = FOOD cfg /\ pos (snd ba) = FOOD cfg /\
   counts_food cfg ba = false /\ counts_nest cfg ba = false) /\
  (dropped ba = true ->
   pos (fst ba) = NEST cfg /\ pos (snd ba) = NEST cfg /\
   counts_food cfg ba = false /\ counts_nest cfg ba = false) /\
  counts_food cfg ba && counts_nest cfg ba = false.
Proof.
  destruct ba as [b a]. intros (ph & rng & ph' & rng' & Hst). cbn [fst snd] in *.
  unfold counts_food, counts_nest, reached_food, reached_nest, picked_up, dropped,
    searching, returning.
  cbn [fst snd].
  assert (Hmoved : forall b a r,
             move cfg draws b ph rng = Some (a, r) ->
             carrying a = carrying b /\
             (pos a = pos b \/ adjacent (pos b) (pos a))).
  { intros b0 a0 r Hm. apply move_inv in Hm.
    destruct Hm as [_ [-> | (c & -> & _ & Hadj)]]; auto. }
  apply step_inv in Hst.
  destruct Hst as [(Hc & Hp & -> & _) | [(Hc & Hp & Hm & _) | [(Hc & Hp & -> & _) | (Hc & Hp & Hm & _)]]].
  - cbn [set_carrying carrying pos]. rewrite Hc, Hp, pos_eqb_refl.
    cbn [negb andb]. rewrite andb_negb_r.
    split; [| split; [| split; [| split]]];
      try (intros H; discriminate H); auto.
  - destruct (Hmoved _ _ _ Hm) as [Hca Hpos]. rewrite Hca, Hc.
    cbn [negb andb].
    apply pos_eqb_neq in Hp. rewrite Hp. rewrite andb_true_r.
    split; [| split; [| split; [| split]]];
      try (intros H; discriminate H); auto using andb_false_r.
    intros H. apply pos_eqb_eq in H. splits; auto.
    destruct Hpos as [E | Hadj]; auto.
    apply pos_eqb_neq in Hp. congruence.
  - cbn [set_carrying carrying pos]. rewrite Hc, Hp, pos_eqb_refl.
    cbn [negb andb]. rewrite andb_false_r, andb_negb_r.
    split; [| split; [| split; [| split]]];
      try (intros H; discriminate H); auto.
  - destruct (Hmoved _ _ _ Hm) as [Hca Hpos]. rewrite Hca, Hc.
    cbn [negb andb].
    apply pos_eqb_neq in Hp. rewrite Hp. rewrite andb_true_r.
    split; [| split; [| split; [| split]]];
      try (intros H; discriminate H); auto.
    intros H. apply pos_eqb_eq in H. splits; auto.
    destruct Hpos as [E | Hadj]; auto.
    apply pos_eqb_neq in Hp. congruence.
Qed.

Lemma Forall_combine {A B : Type} (P : A -> Prop) (Q : B -> Prop)
    (l : list A) (l' : list B) :
  Forall P l -> Forall Q l' ->
  Forall (fun ab => P (fst ab) /\ Q (snd ab)) (combine l l').
Proof.
  intros Hl. revert l'. induction Hl as [| a l Ha Hl IH]; intros l' Hl'.
  - constructor.
  - destruct Hl' as [| b l' Hb Hl']; simpl; constructor; auto.
Qed.

(** A property of ants that every step keeps holds on both sides of
    every snapshot. *)
Lemma observe_Forall (cfg : Config) (draws : nat -> Qc) (P : Ant -> Prop) :
  (forall ant ph rng ant' ph' rng',
      P ant -> step cfg draws ant ph rng = Some (ant', ph', rng') -> P ant') ->
  forall n s l,
    Forall P (ants s) -> observe cfg draws n s = Some l ->
    Forall (fun ba => P (fst ba) /\ P (snd ba)) l.
Proof.
  intros Hstep. induction n as [| n IH]; intros s l HP H; simpl in H.
  - inversion H. constructor.
  - destruct (tick cfg draws s) as [s1 |] eqn:Ht; [| discriminate].
    destruct (observe cfg draws n s1) as [later |] eqn:Hobs; [| discriminate].
    inversion H; subst l.
    assert (HP1 : Forall P (ants s1)).
    { apply (ticks_Forall cfg draws P Hstep 1 s s1 HP). simpl. now rewrite Ht. }
    apply Forall_app. split.
    + now apply Forall_combine.
    + now apply (IH s1).
Qed.

Lemma adjacent_neighbouring (p q : Z * Z) :
  adjacent p q <-> neighbouring p q = true.
Proof.
  unfold adjacent, neighbouring. rewrite existsb_exists, in_map_iff. split.
  - intros (d & <- & Hd). exists d. split; [exact Hd | apply pos_eqb_refl].
  - intros (d & Hd & E). apply pos_eqb_eq in E. eauto.
Qed.

(** On a snapshot of one call of [step], each test of the clock
    passes exactly at an arrival: the step that brings a Searching
    agent onto FOOD is a move from a neighbouring cell, which keeps it
    Searching, and no other step passes the test; and the same at
    NEST. *)
Lemma stepped_arrivals (cfg : Config) (draws : nat -> Qc) (ba : Ant * Ant) :
  stepped cfg draws ba ->
  counts_food cfg ba = arrived_food cfg ba /\
  counts_nest cfg ba = arrived_nest cfg ba.
Proof.
  destruct ba as [b a]. intros (ph & rng & ph' & rng' & Hst).
  unfold counts_food, counts_nest, reached_food, reached_nest, arrived_food, arrived_nest.
  cbn [fst snd] in *.
  assert (Hmoved : forall r,
             move cfg draws b ph rng = Some (a, r) ->
             carrying a = carrying b /\
             ((pos a = pos b /\ neighbouring (pos b) (pos a) = false) \/
              (pos a <> pos b /\ neighbouring (pos b) (pos a) = true))).
  { intros r Hm. apply move_inv in Hm.
    destruct Hm as [_ [-> | (c & -> & _ & Hadj)]].
    - split; [reflexivity |]. left. split; [reflexivity |].
      destruct (neighbouring (pos b) (pos b)) eqn:E; [| reflexivity].
      apply adjacent_neighbouring, adjacent_neq in E. congruence.
    - split; [reflexivity |]. right. cbn [set_pos pos]. split.
      + now apply adjacent_neq.
      + now apply adjacent_neighbouring. }
  apply step_inv in Hst.
  destruct Hst as [(Hc & Hp & -> & _) | [(Hc & Hp & Hm & _) |
                   [(Hc & Hp & -> & _) | (Hc & Hp & Hm & _)]]].
  - cbn [set_carrying carrying pos]. rewrite Hc, Hp.
    cbn [negb andb]. split; try reflexivity; destruct (pos_eqb _ _); reflexivity.
  - destruct (Hmoved _ Hm) as [Hca Hpos]. rewrite Hca, Hc. cbn [negb andb].
    apply pos_eqb_neq in Hp. rewrite Hp. cbn [negb]. rewrite andb_true_r.
    split; [| reflexivity].
    destruct Hpos as [[E Hn] | [E Hn]]; rewrite Hn.
    + rewrite E, Hp. reflexivity.
    + now rewrite andb_true_r.
  - cbn [set_carrying carrying pos]. rewrite Hc, Hp.
    cbn [negb andb]. split; try reflexivity; destruct (pos_eqb _ _); reflexivity.
  - destruct (Hmoved _ Hm) as [Hca Hpos]. rewrite Hca, Hc. cbn [negb andb].
    apply pos_eqb_neq in Hp. rewrite Hp. cbn [negb]. rewrite andb_true_r.
    split; [reflexivity |].
    destruct Hpos as [[E Hn] | [E Hn]]; rewrite Hn.
    + rewrite E, Hp. reflexivity.
    + now rewrite andb_true_r.
Qed.

Lemma count_ext {A : Type} (f g : A -> bool) (l : list A) :
  Forall (fun a => f a = g a) l -> count f l = count g l.
Proof.
  induction 1 as [| a l Ha _ IH]; [reflexivity |].
  rewrite !count_cons, Ha, IH. reflexivity.
Qed.

(** * The claims *)

(** C1, as stated, fails at the constants of the source: with draws
    that walk the 100 ants from NEST straight to FOOD, after 38 ticks
    [found_food] is 100, although no agent has yet gone from Searching
    to Returning. *)
Lemma found_food_before_pick_up :
  exists s l,
    simulate default_config straight_to_food 38 = Some s /\
    observe default_config straight_to_food 38 (initial default_config) = Some l /\
    found_food (stats s) = 100 /\
    count picked_up l = 0 /\
    found_food (stats s) <> count picked_up l.
Proof.
  destruct (simulate_total default_config straight_to_food 38) as (s & Hs & _).
  destruct (ticks_observe default_config straight_to_food (Z.to_nat 38)
              (initial default_config) s Hs)
    as (l & Hobs & _ & Hf & _).
  assert (Hrun :
            match observe default_config straight_to_food (Z.to_nat 38)
                          (initial default_config) with
            | Some l => (count (counts_food default_config) l =? 100)
                        && (count picked_up l =? 0)
            | None => false
            end = true) by (vm_compute; reflexivity).
  rewrite Hobs in Hrun. apply andb_true_iff in Hrun. destruct Hrun as [Ha Hp].
  apply Z.eqb_eq in Ha, Hp.
  exists s, l. change (Z.to_nat 38) with 38%nat in Hobs. splits; auto.
  - rewrite Hf, Ha. reflexivity.
  - rewrite Hf, Ha, Hp. discriminate.
Qed.

(** C1, amended: [found_food] is the number of (tick, agent) pairs at
    which the agent, Searching before and after, moved onto FOOD from
    a neighbouring cell, and [returned] the number of pairs at which
    the agent, Returning before and after, moved onto NEST from a
    neighbouring cell.  Every such arrival is counted, in its own
    tick, and nothing else is: the tick of a transition (Searching at
    FOOD becomes Returning, Returning at NEST becomes Searching)
    moves no agent and counts nothing, and no pair is an arrival of
    both kinds. *)
Theorem counters_count_arrivals (cfg : Config) (draws : nat -> Qc) (steps : Z) :
  exists s l,
    simulate cfg draws steps = Some s /\
    observe cfg draws (Z.to_nat steps) (initial cfg) = Some l /\
    length l = (Z.to_nat steps * Z.to_nat (ANT_COUNT cfg))%nat /\
    found_food (stats s) = count (arrived_food cfg) l /\
    returned (stats s) = count (arrived_nest cfg) l /\
    Forall
      (fun ba =>
         stepped cfg draws ba /\
         (arrived_food cfg ba = true <->
          searching (fst ba) /\ searching (snd ba) /\
          pos (snd ba) = FOOD cfg /\ adjacent (pos (fst ba)) (pos (snd ba))) /\
         (arrived_nest cfg ba = true <->
          returning (fst ba) /\ returning (snd ba) /\
          pos (snd ba) = NEST cfg /\ adjacent (pos (fst ba)) (pos (snd ba))) /\
         (picked_up ba = true ->
          pos (fst ba) = FOOD cfg /\ pos (snd ba) = FOOD cfg /\
          arrived_food cfg ba = false /\ arrived_nest cfg ba = false) /\
         (dropped ba = true ->
          pos (fst ba) = NEST cfg /\ pos (snd ba) = NEST cfg /\
          arrived_food cfg ba = false /\ arrived_nest cfg ba = false) /\
         arrived_food cfg ba && arrived_nest cfg ba = false)
      l.
Proof.
  destruct (simulate_total cfg draws steps) as (s & Hs & _).
  destruct (ticks_observe cfg draws (Z.to_nat steps) (initial cfg) s Hs)
    as (l & Hobs & Hlen & Hf & Hr & Hall).
  destruct (initial_ants cfg) as [Hn _]. rewrite Hn in Hlen.
  assert (Hsame : Forall (fun ba => counts_food cfg ba = arrived_food cfg ba /\
                                    counts_nest cfg ba = arrived_nest cfg ba) l).
  { revert Hall. apply Forall_impl. intros ba. apply stepped_arrivals. }
  exists s, l. splits; auto.
  - rewrite Hf. cbn [initial stats found_food]. rewrite Z.add_0_l.
    apply count_ext. revert Hsame. apply Forall_impl. tauto.
  - rewrite Hr. cbn [initial stats returned]. rewrite Z.add_0_l.
    apply count_ext. revert Hsame. apply Forall_impl. tauto.
  - rewrite Forall_forall in *. intros ba Hin.
    pose proof (Hall ba Hin) as Hstep.
    destruct (Hsame ba Hin) as [Ef En].
    destruct (stepped_facts cfg draws ba Hstep) as (_ & _ & Hpick & Hdrop & Hex).
    rewrite Ef, En in Hpick, Hdrop, Hex.
    assert (Hadj : forall p q, neighbouring p q = true <-> adjacent p q)
      by (intros p q; symmetry; apply adjacent_neighbouring).
    splits; auto.
    + unfold arrived_food, searching.
      rewrite !andb_true_iff, !negb_true_iff, pos_eqb_eq, Hadj. tauto.
    + unfold arrived_nest, returning.
      rewrite !andb_true_iff, pos_eqb_eq, Hadj. tauto.
Qed.

(** C2, as stated, fails: the 1 x 1 grid is a configuration error of
    section 7, and [simulate] runs its 200 ticks on it, with a field
    of one cell and the 100 agents. *)
Lemma one_by_one_runs :
  configuration_error one_by_one = true /\
  exists s,
    simulate one_by_one half 200 = Some s /\
    length (pheromones s) = 1%nat /\
    length (ants s) = 100%nat /\
    stats s = {| found_food := 0; returned := 0 |}.
Proof.
  split; [reflexivity |].
  destruct (simulate one_by_one half 200) as [s |] eqn:Hs.
  - exists s. split; [reflexivity |].
    assert (Hrun :
              option_map (fun s => (length (pheromones s), length (ants s), stats s))
                         (simulate one_by_one half 200)
              = Some (1%nat, 100%nat, {| found_food := 0; returned := 0 |}))
      by (vm_compute; reflexivity).
    rewrite Hs in Hrun. simpl in Hrun. inversion Hrun as [[H1 H2 H3]].
    rewrite H1, H2. auto.
  - exfalso. destruct (simulate_total one_by_one half 200) as (s & Hs' & _).
    congruence.
Qed.

(** C2, amended: [simulate] checks none of its constants.  At every
    configuration, those of section 7 included, it builds the field
    ([HEIGHT] rows of [WIDTH] zeros, none when the number is not
    positive) and the agents ([ANT_COUNT] of them at NEST, none when
    the number is negative) and runs all its ticks to the end without
    raising. *)
Theorem simulate_checks_nothing (cfg : Config) (draws : nat -> Qc) (steps : Z) :
  shaped cfg (pheromones (initial cfg)) /\
  length (ants (initial cfg)) = Z.to_nat (ANT_COUNT cfg) /\
  Forall (fun a => pos a = NEST cfg /\ carrying a = false) (ants (initial cfg)) /\
  exists s,
    simulate cfg draws steps = Some s /\
    shaped cfg (pheromones s) /\
    length (ants s) = Z.to_nat (ANT_COUNT cfg) /\
    Forall (placed cfg) (ants s).
Proof.
  destruct (initial_ants cfg) as [Hn Hall].
  destruct (simulate_total cfg draws steps) as (s & Hs & Hsh & Hpl & Hlen & _).
  splits; auto.
  - apply initial_shaped.
  - exists s. splits; auto.
Qed.

(** C3: started at NEST, every agent is on the grid after every
    number of ticks, [0 <= x < WIDTH] and [0 <= y < HEIGHT], and so it
    is before and after every one of its steps: a step keeps an agent
    on the grid, because [move] only ever assigns [pos] an in-bounds
    orthogonal neighbour and a transition tick does not move the
    agent. *)
Theorem positions_in_bounds (cfg : Config) (draws : nat -> Qc) (steps : Z) :
  in_bounds cfg (NEST cfg) = true ->
  (exists s,
      simulate cfg draws steps = Some s /\
      length (ants s) = Z.to_nat (ANT_COUNT cfg) /\
      Forall (fun a => 0 <= fst (pos a) < WIDTH cfg /\ 0 <= snd (pos a) < HEIGHT cfg)
             (ants s)) /\
  (exists l,
      observe cfg draws (Z.to_nat steps) (initial cfg) = Some l /\
      length l = (Z.to_nat steps * Z.to_nat (ANT_COUNT cfg))%nat /\
      Forall (fun ba => in_bounds cfg (pos (fst ba)) = true /\
                        in_bounds cfg (pos (snd ba)) = true) l) /\
  (forall ant ph rng ant' rng',
      move cfg draws ant ph rng = Some (ant', rng') ->
      pos ant' = pos ant \/
      (in_bounds cfg (pos ant') = true /\ adjacent (pos ant) (pos ant'))) /\
  (forall ant ph rng ant' ph' rng',
      step cfg draws ant ph rng = Some (ant', ph', rng') ->
      (carrying ant' <> carrying ant -> pos ant' = pos ant) /\
      (in_bounds cfg (pos ant) = true -> in_bounds cfg (pos ant') = true)).
Proof.
  intros Hnest.
  assert (Hmove : forall ant ph rng ant' rng',
             move cfg draws ant ph rng = Some (ant', rng') ->
             pos ant' = pos ant \/
             (in_bounds cfg (pos ant') = true /\ adjacent (pos ant) (pos ant'))).
  { intros ant ph rng ant' rng' Hm. apply move_inv in Hm.
    destruct Hm as [_ [-> | (c & -> & Hb & Hadj)]]; auto. }
  assert (Hstep : forall ant ph rng ant' ph' rng',
             step cfg draws ant ph rng = Some (ant', ph', rng') ->
             (carrying ant' <> carrying ant -> pos ant' = pos ant) /\
             (in_bounds cfg (pos ant) = true -> in_bounds cfg (pos ant') = true)).
  { intros ant ph rng ant' ph' rng' Hst. apply step_inv in Hst.
    destruct Hst as [(_ & _ & -> & _) | [(_ & _ & Hm & _) | [(_ & _ & -> & _) | (_ & _ & Hm & _)]]];
      simpl; auto.
    - split.
      + intros Hc. apply move_carrying in Hm. destruct Hm. congruence.
      + intros Hb. destruct (Hmove _ _ _ _ _ Hm) as [-> | [Hb' _]]; auto.
    - split.
      + intros Hc. apply move_carrying in Hm. destruct Hm. congruence.
      + intros Hb. destruct (Hmove _ _ _ _ _ Hm) as [-> | [Hb' _]]; auto. }
  assert (Hkeep : forall ant ph rng ant' ph' rng',
             in_bounds cfg (pos ant) = true ->
             step cfg draws ant ph rng = Some (ant', ph', rng') ->
             in_bounds cfg (pos ant') = true).
  { intros ant ph rng ant' ph' rng' Hb Hst. now apply (Hstep _ _ _ _ _ _ Hst). }
  assert (Hinit : Forall (fun a => in_bounds cfg (pos a) = true) (ants (initial cfg))).
  { destruct (initial_ants cfg) as [_ Hall].
    revert Hall. apply Forall_impl. simpl. intros a [-> _]. exact Hnest. }
  destruct (simulate_total cfg draws steps) as (s & Hs & _ & _ & Hlen & _).
  splits; auto.
  - exists s. splits; auto.
    unfold simulate in Hs.
    apply (ticks_Forall cfg draws (fun a => in_bounds cfg (pos a) = true)) in Hs; auto.
    revert Hs. apply Forall_impl. intros a Ha.
    destruct (pos a) as [x y]. apply in_bounds_iff in Ha. simpl. exact Ha.
  - destruct (ticks_observe cfg draws (Z.to_nat steps) (initial cfg) s Hs)
      as (l & Hobs & Hl & _).
    destruct (initial_ants cfg) as [Hn _].
    exists l. splits; auto.
    + now rewrite Hl, Hn.
    + apply (observe_Forall cfg draws (fun a => in_bounds cfg (pos a) = true)
               Hkeep _ _ _ Hinit Hobs).
Qed.

Lemma positions_in_bounds_witness :
  exists s,
    simulate default_config half 200 = Some s /\
    Forall (fun a => 0 <= fst (pos a) < 20 /\ 0 <= snd (pos a) < 20) (ants s).
Proof.
  destruct (positions_in_bounds default_config half 200 eq_refl)
    as ((s & Hs & _ & Hall) & _).
  exists s. split; assumption.
Defined.

(** C4: from the all-zero field, after every operation of every
    sequence of deposits and evaporations every intensity is
    non-negative, when [DEPOSIT >= 0] and EVAPORATION is in [[0, 1)];
    a sequence whose deposits are on the grid runs through; and so
    the field of every run is non-negative. *)
Theorem intensities_nonneg (cfg : Config) (os : list FieldOp) (k : nat) :
  (0 <= DEPOSIT cfg)%Qc -> (0 <= EVAPORATION cfg < 1)%Qc ->
  (forall ph,
      apply_ops cfg (pheromones (initial cfg)) (firstn k os) = Some ph ->
      nonneg ph /\
      forall x y v, cell ph x y = Some v -> (0 <= v)%Qc) /\
  (Forall (fun o => match o with
                    | Deposit x y => in_bounds cfg (x, y) = true
                    | EvaporateAll => True
                    end) os ->
   exists ph, apply_ops cfg (pheromones (initial cfg)) (firstn k os) = Some ph) /\
  (forall draws steps, exists s,
      simulate cfg draws steps = Some s /\ nonneg (pheromones s)).
Proof.
  intros Hd [He0 He1]. assert (He : (EVAPORATION cfg <= 1)%Qc) by qlra. splits.
  - intros ph H.
    destruct (apply_ops_keeps cfg (firstn k os) Hd He _ _
                (initial_shaped cfg) (initial_nonneg cfg) H) as [_ Hn].
    split; auto.
    intros x y v Hc. unfold cell, getitem in Hc.
    destruct (subscript (length ph) y) as [i |]; [| discriminate].
    destruct (nth_error ph i) as [row |] eqn:Hrow; [| discriminate].
    destruct (subscript (length row) x) as [j |]; [| discriminate].
    unfold nonneg in Hn. rewrite Forall_forall in Hn.
    pose proof (Hn row (nth_error_In _ _ Hrow)) as Hr.
    rewrite Forall_forall in Hr. apply Hr. eapply nth_error_In; eauto.
  - intros Hos. apply apply_ops_total.
    + now apply Forall_firstn.
    + apply initial_shaped.
  - intros draws steps.
    destruct (simulate_total cfg draws steps) as (s & Hs & _).
    exists s. split; auto.
    apply (ticks_nonneg cfg draws Hd He (Z.to_nat steps) (initial cfg) s); auto.
    + apply initial_shaped.
    + apply initial_placed.
    + apply initial_nonneg.
Qed.

Lemma intensities_nonneg_witness :
  exists ph,
    apply_ops default_config (pheromones (initial default_config))
      [Deposit 3 4; EvaporateAll; Deposit 3 4; EvaporateAll] = Some ph /\
    nonneg ph.
Proof.
  assert (Hd : (0 <= DEPOSIT default_config)%Qc) by discriminate.
  assert (He : (0 <= EVAPORATION default_config < 1)%Qc)
    by (split; [discriminate | reflexivity]).
  destruct (intensities_nonneg default_config
              [Deposit 3 4; EvaporateAll; Deposit 3 4; EvaporateAll] 4 Hd He)
    as (Hall & Hrun & _).
  destruct Hrun as [ph Hph].
  - repeat constructor.
  - exists ph. split; [exact Hph | apply (Hall ph Hph)].
Defined.

(** C5 fails on the code: the selection loop of [move] can run to
    its end without choosing.  From [(5, 5)] on the grid of the
    source, with four in-bounds neighbours and a field without
    negative cells: when the four neighbours hold [1e308], the sum
    of the weights overflows to infinity, [random() = 0.0] gives
    [r = inf * 0.0 = nan], and no comparison [r <= cumulative]
    passes, under either [sum]; and under the compensated [sum] of
    CPython 3.12, with weights 600 and three times [1 + 2^-44], the
    sum is [603.00000000000023], the draw [1 - 2^-53] gives
    [r = 603.00000000000011], and the running [cumulative], which
    rounds at every addition, ends at 603.  In both cases [move]
    returns with [pos] unchanged, where another draw, 0.5, moves the
    agent to [(4, 5)]. *)
Theorem move_falls_through :
  in_bounds default_config (5, 5) = true /\
  has_neighbour default_config (5, 5) = true /\
  all_nonneg (around (5, 5) 1e308) = true /\
  all_nonneg uneven = true /\ all_finite uneven = true /\
  (exists cs ws,
      Binary64.neighbours default_config (around (5, 5) 1e308) 5 5 DIRECTIONS
        = Some (cs, ws) /\
      cs = [(4, 5); (6, 5); (5, 4); (5, 6)] /\
      Binary64.sum Binary64.LeftToRight ws = infinity /\
      Binary64.sum Binary64.Compensated ws = infinity /\
      is_nan (Binary64.uniform 0 infinity 0) = true /\
      Binary64.select (Binary64.uniform 0 infinity 0) 0 (combine cs ws) = None) /\
  Binary64.move default_config (source_floats Binary64.LeftToRight) (fun _ => 0%float)
    (mkAnt 0 (5, 5) false) (around (5, 5) 1e308) 0
    = Some (mkAnt 0 (5, 5) false, 1%nat) /\
  Binary64.move default_config (source_floats Binary64.Compensated) (fun _ => 0%float)
    (mkAnt 0 (5, 5) false) (around (5, 5) 1e308) 0
    = Some (mkAnt 0 (5, 5) false, 1%nat) /\
  (exists cs ws,
      Binary64.neighbours default_config uneven 5 5 DIRECTIONS = Some (cs, ws) /\
      cs = [(4, 5); (6, 5); (5, 4); (5, 6)] /\
      Binary64.sum Binary64.Compensated ws = 603.00000000000023%float /\
      Binary64.uniform 0 603.00000000000023 almost_one = 603.00000000000011%float /\
      Binary64.cumulated 0 ws = 603%float /\
      Binary64.select 603.00000000000011 0 (combine cs ws) = None) /\
  Binary64.move default_config (source_floats Binary64.Compensated) (fun _ => almost_one)
    (mkAnt 0 (5, 5) false) uneven 0
    = Some (mkAnt 0 (5, 5) false, 1%nat) /\
  Binary64.move default_config (source_floats Binary64.Compensated) (fun _ => 0.5%float)
    (mkAnt 0 (5, 5) false) uneven 0
    = Some (mkAnt 0 (4, 5) false, 1%nat).
Proof.
  splits; try (vm_compute; reflexivity).
  - eexists _, _. splits; [vm_compute; reflexivity | ..]; vm_compute; reflexivity.
  - eexists _, _. splits; [vm_compute; reflexivity | ..]; vm_compute; reflexivity.
Qed.





(** Nor does a positive intensity have to decrease, as the program
    computes it: the smallest positive float times
    [1.0 - 0.02 = 0.98] rounds back to itself; and when
    [EVAPORATION] is positive but below half the gap between 1 and its
    neighbours, as [1e-17] is, [1.0 - EVAPORATION] is 1 and no cell
    changes at all. *)
Lemma evaporation_keeps_smallest :
  (0 <? Binary64.EVAPORATION (source_floats Binary64.LeftToRight))%float = true /\
  (0 <? 0x1p-1074)%float = true /\
  Binary64.evaporate corridor (source_floats Binary64.LeftToRight)
    [[0x1p-1074%float; 1%float; 0%float]]
    = Some [[0x1p-1074%float; 0.98%float; 0%float]] /\
  (0 <? 1e-17)%float = true /\
  Binary64.evaporate corridor
    {| Binary64.EVAPORATION := 1e-17%float;
       Binary64.DEPOSIT := 1%float;
       Binary64.summation := Binary64.LeftToRight |}
    [[0x1p-1074%float; 1%float; 0%float]]
    = Some [[0x1p-1074%float; 1%float; 0%float]].
Proof. splits; vm_compute; reflexivity. Qed.



(** C8: two runs with the same number of steps, the same constants
    and the same draws end with the same event counts, the same field
    and the same ants; only the draws the run consumes matter, at
    most one per agent and tick. *)
Theorem draws_determine_run (cfg : Config) (steps : Z) (d1 d2 : nat -> Qc) :
  (forall i, (i < Z.to_nat steps * Z.to_nat (ANT_COUNT cfg))%nat -> d1 i = d2 i) ->
  exists s1 s2,
    simulate cfg d1 steps = Some s1 /\ simulate cfg d2 steps = Some s2 /\
    stats s1 = stats s2 /\ pheromones s1 = pheromones s2 /\ ants s1 = ants s2.
Proof.
  intros H.
  destruct (simulate_total cfg d1 steps) as (s & Hs & _).
  exists s, s. splits; auto.
  rewrite <- Hs. unfold simulate. symmetry. apply ticks_ext.
  intros i Hi. apply H.
  destruct (initial_ants cfg) as [Hn _]. rewrite Hn in Hi. simpl in Hi. lia.
Qed.

Lemma draws_determine_run_witness :
  exists s1 s2,
    simulate default_config half 50 = Some s1 /\
    simulate default_config late_change 50 = Some s2 /\
    stats s1 = stats s2 /\ pheromones s1 = pheromones s2.
Proof.
  assert (H : forall i,
             (i < Z.to_nat 50 * Z.to_nat (ANT_COUNT default_config))%nat ->
             half i = late_change i).
  { intros i Hi. unfold half, late_change.
    replace (Z.to_nat 50 * Z.to_nat (ANT_COUNT default_config))%nat with 5000%nat in Hi
      by (vm_compute; reflexivity).
    destruct (Nat.ltb_spec i 5000); [reflexivity | lia]. }
  destruct (draws_determine_run default_config 50 half late_change H)
    as (s1 & s2 & H1 & H2 & H3 & H4 & _).
  exists s1, s2. splits; assumption.
Defined.


(** Nor does the bound of C9 hold for every [EVAPORATION > 0]: in the
    corridor with [EVAPORATION = 3] the agent deposits in ticks 4 and
    5, the field after 5 ticks is [[-2, 4, 0]], total 2, and the bound
    is [-2/3].  All the numbers of this run are small integers, so
    that binary64 computes the same field, with [-0.0] for the zero
    that was multiplied by [-2]. *)
Lemma mass_exceeds_bound_above_one :
  exists s s',
    simulate hasty there_and_back 5 = Some s /\
    (0 < EVAPORATION hasty)%Qc /\
    map (map this) (pheromones s) = [[-2 # 1; 4 # 1; 0 # 1]]%Q /\
    (Q2Qc (inject_Z (ANT_COUNT hasty)) * DEPOSIT hasty * (1 - EVAPORATION hasty)
     / EVAPORATION hasty < mass (pheromones s))%Qc /\
    Binary64.simulate corridor
      {| Binary64.EVAPORATION := 3%float;
         Binary64.DEPOSIT := 1%float;
         Binary64.summation := Binary64.Compensated |}
      (fun n => if (n <? 2)%nat then 0.75%float else 0.25%float) 5 = Some s' /\
    Binary64.pheromones s' = [[(-2)%float; 4%float; (-0)%float]].
Proof.
  destruct (simulate_total hasty there_and_back 5) as (s & Hs & _).
  eexists s, _. split; [exact Hs |].
  vm_compute in Hs. inversion Hs. subst s. clear Hs.
  splits; vm_compute; reflexivity.
Qed.




(** C10: from a position without an in-bounds orthogonal neighbour
    [move] raises nothing and leaves the ant as it was: the candidate
    list is empty, the draw is taken from the empty range [[0, 0]],
    the selection loop has nothing to iterate over.  For a position
    on the grid this happens only when [WIDTH = HEIGHT = 1]; and when
    NEST is such a position the whole run completes with every
    agent still at NEST: the degenerate grid is not rejected. *)
Theorem move_without_neighbour (cfg : Config) (draws : nat -> Qc) (p : Z * Z) :
  has_neighbour cfg p = false ->
  (forall ant ph rng,
      pos ant = p ->
      neighbours cfg ph (fst p) (snd p) DIRECTIONS = Some ([], []) /\
      uniform 0 (sum []) (draws rng) = 0%Qc /\
      select (uniform 0 (sum []) (draws rng)) 0 [] = None /\
      move cfg draws ant ph rng = Some (ant, S rng)) /\
  (in_bounds cfg p = true -> WIDTH cfg = 1 /\ HEIGHT cfg = 1) /\
  (p = NEST cfg ->
   forall steps, exists s,
     simulate cfg draws steps = Some s /\
     length (ants s) = Z.to_nat (ANT_COUNT cfg) /\
     Forall (fun a => pos a = NEST cfg) (ants s)).
Proof.
  intros Hno.
  assert (Hmove : forall ant ph rng, pos ant = p ->
                    move cfg draws ant ph rng = Some (ant, S rng)).
  { intros ant ph rng Hp. unfold move. rewrite Hp. destruct p as [x y].
    rewrite neighbours_none by (apply has_neighbour_false; exact Hno).
    reflexivity. }
  splits.
  - intros ant ph rng Hp. split; [| split; [| split]].
    + destruct p as [x y]. apply neighbours_none.
      apply has_neighbour_false. exact Hno.
    + unfold uniform, sum. cbn [fold_left]. ring.
    + reflexivity.
    + now apply Hmove.
  - intros Hb. pose proof (has_neighbour_grid cfg p Hb) as Hg.
    destruct p as [x y]. apply in_bounds_iff in Hb.
    assert (~ (2 <= WIDTH cfg \/ 2 <= HEIGHT cfg)) by (rewrite <- Hg; congruence).
    lia.
  - intros -> steps.
    destruct (simulate_total cfg draws steps) as (s & Hs & _ & _ & Hlen & _).
    exists s. splits; auto.
    unfold simulate in Hs.
    apply (ticks_Forall cfg draws (fun a => pos a = NEST cfg)) in Hs; auto.
    + intros ant ph rng ant' ph' rng' Hp Hst.
      apply step_inv in Hst.
      destruct Hst as [(_ & _ & -> & _) | [(_ & _ & Hm & _) | [(_ & _ & -> & _) | (_ & Hne & _)]]];
        auto; try congruence.
      rewrite (Hmove ant ph rng Hp) in Hm. inversion Hm; subst. exact Hp.
    + destruct (initial_ants cfg) as [_ Hall].
      eapply Forall_impl; [| exact Hall]. simpl. tauto.
Qed.

Lemma move_without_neighbour_witness :
  has_neighbour one_by_one (0, 0) = false /\
  exists s, simulate one_by_one half 200 = Some s /\
            Forall (fun a => pos a = (0, 0)) (ants s).
Proof.
  split; [reflexivity |].
  destruct (move_without_neighbour one_by_one half (0, 0) eq_refl) as (_ & _ & H).
  destruct (H eq_refl 200) as (s & Hs & _ & Hall).
  exists s. split; assumption.
Defined.

(** * Further properties of the code *)

(** ** Runs compose; what the counters can be *)

Lemma ticks_add (cfg : Config) (draws : nat -> Qc) (m n : nat) (s : Sim) :
  ticks cfg draws (m + n) s =
  match ticks cfg draws m s with
  | Some s' => ticks cfg draws n s'
  | None => None
  end.
Proof.
  revert s. induction m as [| m IH]; intros s; simpl.
  - reflexivity.
  - destruct (tick cfg draws s) as [s1 |]; [apply IH | reflexivity].
Qed.

Lemma count_ge_0 {A : Type} (f : A -> bool) (l : list A) : 0 <= count f l.
Proof. unfold count. lia. Qed.

Lemma count_le_length {A : Type} (f : A -> bool) (l : list A) :
  count f l <= Z.of_nat (length l).
Proof. unfold count. pose proof (filter_length_le f l). lia. Qed.

Lemma count_exclusive {A : Type} (f g : A -> bool) (l : list A) :
  Forall (fun a => f a && g a = false) l ->
  count f l + count g l <= Z.of_nat (length l).
Proof.
  induction 1 as [| a l Ha Hl IH].
  - unfold count. simpl. lia.
  - rewrite !count_cons. simpl length.
    destruct (f a), (g a); simpl in Ha; try discriminate; lia.
Qed.

(** X1: a longer run starts as the shorter one: [simulate(m + n)]
    goes through the state of [simulate(m)] and adds [n] ticks to it.
    The counters start at 0, never decrease, and together never
    exceed one event per agent and tick. *)
Theorem counters_only_grow (cfg : Config) (draws : nat -> Qc) (m n : Z) :
  0 <= m -> 0 <= n ->
  exists s s',
    simulate cfg draws m = Some s /\
    simulate cfg draws (m + n) = Some s' /\
    ticks cfg draws (Z.to_nat n) s = Some s' /\
    0 <= found_food (stats s) <= found_food (stats s') /\
    0 <= returned (stats s) <= returned (stats s') /\
    found_food (stats s') + returned (stats s') <= (m + n) * Z.max 0 (ANT_COUNT cfg).
Proof.
  intros Hm Hn.
  destruct (simulate_total cfg draws m) as (s & Hs & _).
  destruct (simulate_total cfg draws (m + n)) as (s' & Hs' & _).
  assert (Hmn : ticks cfg draws (Z.to_nat n) s = Some s').
  { unfold simulate in *. rewrite Z2Nat.inj_add, ticks_add, Hs in Hs' by lia.
    exact Hs'. }
  destruct (ticks_observe cfg draws _ _ _ Hs) as (l0 & _ & _ & Hf0 & Hr0 & _).
  destruct (ticks_observe cfg draws _ _ _ Hmn) as (l1 & _ & _ & Hf1 & Hr1 & _).
  destruct (ticks_observe cfg draws _ _ _ Hs') as (l & _ & Hlen & Hf & Hr & Hall).
  pose proof (count_ge_0 (counts_food cfg) l0).
  pose proof (count_ge_0 (counts_nest cfg) l0).
  pose proof (count_ge_0 (counts_food cfg) l1).
  pose proof (count_ge_0 (counts_nest cfg) l1).
  simpl in Hf0, Hr0, Hf, Hr.
  exists s, s'. splits; auto; try lia.
  assert (Hex : count (counts_food cfg) l + count (counts_nest cfg) l
                <= Z.of_nat (length l)).
  { apply count_exclusive. revert Hall. apply Forall_impl. intros ba Hba.
    now apply (stepped_facts cfg draws). }
  destruct (initial_ants cfg) as [Hants _]. rewrite Hlen, Hants in Hex.
  rewrite Nat2Z.inj_mul, !Z2Nat.id in Hex by lia.
  rewrite Hf, Hr.
  destruct (Z.max_spec 0 (ANT_COUNT cfg)) as [[Hlt ->] | [Hge ->]].
  - rewrite Z2Nat.id in Hex by lia. lia.
  - replace (Z.of_nat (Z.to_nat (ANT_COUNT cfg))) with 0 in Hex by lia. lia.
Qed.

Lemma counters_only_grow_witness :
  exists s s',
    simulate default_config half 20 = Some s /\
    simulate default_config half 50 = Some s' /\
    found_food (stats s) <= found_food (stats s') /\
    found_food (stats s') + returned (stats s') <= 5000.
Proof.
  destruct (counters_only_grow default_config half 20 30 ltac:(lia) ltac:(lia))
    as (s & s' & Hs & Hs' & _ & Hf & _ & Hb).
  exists s, s'. splits; auto. lia.
Defined.

(** ** Draws consumed *)

Lemma step_draws (cfg : Config) (draws : nat -> Qc) (b a : Ant) (ph ph' : Field)
    (rng rng' : nat) :
  step cfg draws b ph rng = Some (a, ph', rng') ->
  Z.of_nat rng' =
  Z.of_nat rng + 1 - (if picked_up (b, a) then 1 else 0)
  - (if dropped (b, a) then 1 else 0).
Proof.
  intros H. apply step_inv in H. unfold picked_up, dropped. cbn [fst snd].
  destruct H as [(Hc & _ & -> & _ & ->) | [(Hc & _ & Hm & _) | [(Hc & _ & -> & _ & ->) | (Hc & _ & Hm & _)]]].
  - cbn [set_carrying carrying]. rewrite Hc. simpl. lia.
  - destruct (move_carrying _ _ _ _ _ _ _ Hm) as [Hca _].
    apply move_inv in Hm. destruct Hm as [-> _]. rewrite Hca, Hc. simpl. lia.
  - cbn [set_carrying carrying]. rewrite Hc. simpl. lia.
  - destruct (move_carrying _ _ _ _ _ _ _ Hm) as [Hca _].
    apply move_inv in Hm. destruct Hm as [-> _]. rewrite Hca, Hc. simpl. lia.
Qed.

Lemma ants_loop_draws (cfg : Config) (draws : nat -> Qc) (todo : list Ant) :
  forall ph st rng done ph' st' rng',
    ants_loop cfg draws todo ph st rng = Some (done, ph', st', rng') ->
    Z.of_nat rng' =
    Z.of_nat rng + Z.of_nat (length todo)
    - count picked_up (combine todo done) - count dropped (combine todo done).
Proof.
  induction todo as [| ant rest IH]; intros ph st rng done ph' st' rng' H.
  - simpl in H. inversion H; subst. unfold count. simpl. lia.
  - apply ants_loop_cons in H. simpl in H.
    destruct H as (a' & ph1 & rng1 & rest' & Hst & Hl & ->).
    apply step_draws in Hst. specialize (IH _ _ _ _ _ _ _ Hl).
    cbn [combine]. rewrite !count_cons. simpl length. lia.
Qed.

Lemma ticks_draws (cfg : Config) (draws : nat -> Qc) (n : nat) :
  forall s s' l,
    ticks cfg draws n s = Some s' -> observe cfg draws n s = Some l ->
    Z.of_nat (rng s') =
    Z.of_nat (rng s) + Z.of_nat (length l) - count picked_up l - count dropped l.
Proof.
  induction n as [| n IH]; intros s s' l H Hobs; simpl in H, Hobs.
  - inversion H; inversion Hobs; subst. unfold count. simpl. lia.
  - destruct (tick cfg draws s) as [s1 |] eqn:Ht; [| discriminate].
    destruct (observe cfg draws n s1) as [later |] eqn:Hlater; [| discriminate].
    inversion Hobs; subst l. specialize (IH s1 s' later H Hlater).
    unfold tick in Ht.
    destruct (ants_loop cfg draws (ants s) (pheromones s) (stats s) (rng s))
      as [[[[done ph'] st'] rng'] |] eqn:Hl; [| discriminate].
    destruct (evaporate cfg ph'); [| discriminate].
    inversion Ht; subst s1. cbn [ants rng] in *.
    pose proof (ants_loop_draws cfg draws _ _ _ _ _ _ _ _ Hl) as Hd.
    destruct (ants_loop_len cfg draws _ _ _ _ _ _ _ _ Hl) as [Hlen _].
    rewrite !count_app, length_app, length_combine, Hlen, Nat.min_id. lia.
Qed.

(** X2: a run draws from the generator once for every (tick, agent)
    pair, except on the ticks on which the agent picks up or drops,
    which draw nothing. *)
Theorem draws_consumed (cfg : Config) (draws : nat -> Qc) (steps : Z) :
  exists s l,
    simulate cfg draws steps = Some s /\
    observe cfg draws (Z.to_nat steps) (initial cfg) = Some l /\
    length l = (Z.to_nat steps * Z.to_nat (ANT_COUNT cfg))%nat /\
    Z.of_nat (rng s) =
    Z.of_nat (length l) - count picked_up l - count dropped l.
Proof.
  destruct (simulate_total cfg draws steps) as (s & Hs & _).
  destruct (ticks_observe cfg draws _ _ _ Hs) as (l & Hobs & Hlen & _).
  destruct (initial_ants cfg) as [Hn _].
  exists s, l. splits; auto.
  - now rewrite Hlen, Hn.
  - rewrite (ticks_draws cfg draws _ _ _ _ Hs Hobs). simpl. lia.
Qed.

(** ** Trips counted at FOOD and not yet at NEST *)

Lemma step_balance (cfg : Config) (draws : nat -> Qc) (b a : Ant) (ph ph' : Field)
    (rng rng' : nat) :
  NEST cfg <> FOOD cfg ->
  step cfg draws b ph rng = Some (a, ph', rng') ->
  (if laden cfg a then 1 else 0) - (if laden cfg b then 1 else 0) =
  (if reached_food cfg (pos b) a then 1 else 0)
  - (if reached_nest cfg (pos b) a then 1 else 0).
Proof.
  intros Hne H. apply step_inv in H.
  assert (Hnf : pos_eqb (NEST cfg) (FOOD cfg) = false) by now apply pos_eqb_neq.
  assert (Hfn : pos_eqb (FOOD cfg) (NEST cfg) = false)
    by (apply pos_eqb_neq; congruence).
  unfold laden, reached_food, reached_nest.
  destruct H as [(Hc & Hp & -> & _) | [(Hc & Hp & Hm & _) | [(Hc & Hp & -> & _) | (Hc & Hp & Hm & _)]]].
  - cbn [set_carrying carrying pos]. rewrite Hc, Hp, pos_eqb_refl, Hfn. reflexivity.
  - destruct (move_carrying _ _ _ _ _ _ _ Hm) as [Hca _]. rewrite Hca, Hc.
    apply pos_eqb_neq in Hp. rewrite Hp. cbn [negb andb].
    destruct (pos_eqb (pos a) (FOOD cfg)); reflexivity.
  - cbn [set_carrying carrying pos]. rewrite Hc, Hp, pos_eqb_refl, Hnf. reflexivity.
  - destruct (move_carrying _ _ _ _ _ _ _ Hm) as [Hca _]. rewrite Hca, Hc.
    apply pos_eqb_neq in Hp. rewrite Hp. cbn [negb andb].
    destruct (pos_eqb (pos a) (NEST cfg)); reflexivity.
Qed.

Lemma ants_loop_balance (cfg : Config) (draws : nat -> Qc) (todo : list Ant) :
  NEST cfg <> FOOD cfg ->
  forall ph st rng done ph' st' rng',
    ants_loop cfg draws todo ph st rng = Some (done, ph', st', rng') ->
    found_food st' - returned st' - count (laden cfg) done =
    found_food st - returned st - count (laden cfg) todo.
Proof.
  intros Hne. induction todo as [| ant rest IH]; intros ph st rng done ph' st' rng' H.
  - simpl in H. inversion H; subst. reflexivity.
  - apply ants_loop_cons in H. simpl in H.
    destruct H as (a' & ph1 & rng1 & rest' & Hst & Hl & ->).
    pose proof (step_balance cfg draws _ _ _ _ _ _ Hne Hst) as Hb.
    specialize (IH _ _ _ _ _ _ _ Hl).
    destruct (record_counts cfg (pos ant) a' st) as [Hf Hr].
    rewrite !count_cons. lia.
Qed.

Lemma ticks_balance (cfg : Config) (draws : nat -> Qc) (n : nat) :
  NEST cfg <> FOOD cfg ->
  forall s s',
    ticks cfg draws n s = Some s' ->
    found_food (stats s') - returned (stats s') - count (laden cfg) (ants s') =
    found_food (stats s) - returned (stats s) - count (laden cfg) (ants s).
Proof.
  intros Hne. induction n as [| n IH]; intros s s' H; simpl in H.
  - inversion H. reflexivity.
  - destruct (tick cfg draws s) as [s1 |] eqn:Ht; [| discriminate].
    rewrite (IH s1 s' H). unfold tick in Ht.
    destruct (ants_loop cfg draws (ants s) (pheromones s) (stats s) (rng s))
      as [[[[done ph'] st'] rng'] |] eqn:Hl; [| discriminate].
    destruct (evaporate cfg ph'); [| discriminate].
    inversion Ht; subst s1. cbn [ants stats].
    now apply (ants_loop_balance cfg draws (ants s) Hne _ _ _ _ _ _ _ Hl).
Qed.

Lemma initial_laden (cfg : Config) :
  NEST cfg <> FOOD cfg -> count (laden cfg) (ants (initial cfg)) = 0.
Proof.
  intros Hne. destruct (initial_ants cfg) as [_ Hall].
  induction Hall as [| a l [Hp Hc] _ IH]; [reflexivity |].
  rewrite count_cons, IH. unfold laden. rewrite Hc, Hp.
  apply pos_eqb_neq in Hne. now rewrite Hne.
Qed.

(** X3: with NEST and FOOD on different cells, [found_food] minus
    [returned] is at every moment the number of agents on a counted
    trip: Searching on FOOD or Returning away from NEST.  The report
    therefore never shows more returns than finds, nor finds ahead of
    returns by more than the number of ants. *)
Theorem counters_balance (cfg : Config) (draws : nat -> Qc) (steps : Z) :
  NEST cfg <> FOOD cfg ->
  exists s,
    simulate cfg draws steps = Some s /\
    found_food (stats s) - returned (stats s) = count (laden cfg) (ants s) /\
    returned (stats s) <= found_food (stats s) <=
      returned (stats s) + Z.max 0 (ANT_COUNT cfg).
Proof.
  intros Hne.
  destruct (simulate_total cfg draws steps) as (s & Hs & _ & _ & Hlen & _).
  pose proof (ticks_balance cfg draws _ Hne _ _ Hs) as Hb.
  rewrite (initial_laden cfg Hne) in Hb. simpl in Hb.
  pose proof (count_ge_0 (laden cfg) (ants s)).
  pose proof (count_le_length (laden cfg) (ants s)) as Hle. rewrite Hlen in Hle.
  exists s. splits; auto; lia.
Qed.

Lemma counters_balance_witness :
  exists s,
    simulate default_config half 200 = Some s /\
    returned (stats s) <= found_food (stats s) <= returned (stats s) + 100.
Proof.
  destruct (counters_balance default_config half 200 ltac:(discriminate))
    as (s & Hs & _ & Hb).
  exists s. split; [exact Hs | exact Hb].
Defined.

(** ** How early anything can happen *)

Lemma manhattan_adjacent (r p q : Z * Z) :
  adjacent p q -> manhattan r q <= manhattan r p + 1.
Proof.
  destruct r as [rx ry], p as [x y].
  unfold adjacent, DIRECTIONS, offset, manhattan. simpl.
  intros [H | [H | [H | [H | []]]]]; subst q; simpl; lia.
Qed.

Lemma manhattan_refl (p : Z * Z) : manhattan p p = 0.
Proof. unfold manhattan. lia. Qed.

Lemma manhattan_sym (p q : Z * Z) : manhattan p q = manhattan q p.
Proof. unfold manhattan. lia. Qed.

Lemma step_schedule (cfg : Config) (draws : nat -> Qc) (t : Z) (b a : Ant)
    (ph ph' : Field) (rng rng' : nat) :
  on_schedule cfg t b ->
  step cfg draws b ph rng = Some (a, ph', rng') ->
  on_schedule cfg (t + 1) a.
Proof.
  intros [Hd Hcar] H. apply step_inv in H. unfold on_schedule.
  assert (Hmoved : forall r,
             move cfg draws b ph rng = Some (a, r) ->
             carrying a = carrying b /\
             forall q, manhattan q (pos a) <= manhattan q (pos b) + 1).
  { intros r Hm. apply move_inv in Hm.
    destruct Hm as [_ [-> | (c & -> & _ & Hadj)]]; split; auto.
    - intros q. lia.
    - intros q. simpl. now apply manhattan_adjacent. }
  destruct H as [(Hc & Hp & -> & _) | [(Hc & Hp & Hm & _) | [(Hc & Hp & -> & _) | (Hc & Hp & Hm & _)]]].
  - cbn [set_carrying carrying pos]. rewrite Hp in *.
    rewrite manhattan_refl. split; intros; lia.
  - destruct (Hmoved _ Hm) as [Hca Hstep]. rewrite Hca, Hc.
    split; [| discriminate]. specialize (Hstep (NEST cfg)). lia.
  - cbn [set_carrying carrying pos]. split; [lia | discriminate].
  - destruct (Hmoved _ Hm) as [Hca Hstep]. specialize (Hcar Hc).
    split; [specialize (Hstep (NEST cfg)); lia |].
    intros _. specialize (Hstep (FOOD cfg)). lia.
Qed.

Lemma ants_loop_Forall_to (cfg : Config) (draws : nat -> Qc) (P Q : Ant -> Prop) :
  (forall ant ph rng ant' ph' rng',
      P ant -> step cfg draws ant ph rng = Some (ant', ph', rng') -> Q ant') ->
  forall todo ph st rng done ph' st' rng',
    Forall P todo ->
    ants_loop cfg draws todo ph st rng = Some (done, ph', st', rng') ->
    Forall Q done.
Proof.
  intros Hstep. induction todo as [| ant rest IH]; intros ph st rng done ph' st' rng' HP H.
  - simpl in H. inversion H. constructor.
  - apply ants_loop_cons in H. simpl in H.
    destruct H as (a' & ph1 & rng1 & rest' & Hst & Hl & ->).
    inversion HP; subst. constructor; eauto.
Qed.

Lemma ants_loop_no_carrier (cfg : Config) (draws : nat -> Qc) (todo : list Ant) :
  forall ph st rng done ph' st' rng',
    Forall (fun a => carrying a = false) todo ->
    ants_loop cfg draws todo ph st rng = Some (done, ph', st', rng') ->
    ph' = ph.
Proof.
  induction todo as [| ant rest IH]; intros ph st rng done ph' st' rng' Hall H.
  - simpl in H. now inversion H.
  - apply ants_loop_cons in H. simpl in H.
    destruct H as (a' & ph1 & rng1 & rest' & Hst & Hl & _).
    inversion Hall as [| ? ? Hc Hrest]; subst.
    rewrite (IH _ _ _ _ _ _ _ Hrest Hl).
    apply step_inv in Hst.
    destruct Hst as [(_ & _ & _ & -> & _) | [(_ & _ & _ & ->) | [(Hc' & _) | (Hc' & _)]]];
      auto; congruence.
Qed.

Lemma count_none {A : Type} (f : A -> bool) (l : list A) :
  Forall (fun a => f a = false) l -> count f l = 0.
Proof.
  induction 1 as [| a l Ha Hl IH]; [reflexivity |].
  now rewrite count_cons, Ha, IH.
Qed.

Lemma Forall_combine_snd {A B : Type} (Q : B -> Prop) (l : list A) (l' : list B) :
  Forall Q l' -> Forall (fun ab => Q (snd ab)) (combine l l').
Proof.
  intros Hl'. revert l. induction Hl' as [| b l' Hb Hl' IH]; intros [| a l]; simpl;
    constructor; auto.
Qed.

Lemma decay_zero (cfg : Config) : decay cfg 0 = 0%Qc.
Proof. unfold decay. apply Qcmult_0_l. Qed.

(** A field without pheromone evaporates to itself. *)
Lemma evaporate_initial (cfg : Config) :
  evaporate cfg (pheromones (initial cfg)) = Some (pheromones (initial cfg)).
Proof.
  rewrite (evaporate_map cfg _ (initial_shaped cfg)). apply f_equal.
  cbn [initial pheromones]. rewrite map_map. apply map_ext. intros y.
  rewrite map_map. apply map_ext. intros x. apply decay_zero.
Qed.

Lemma schedule_no_find (cfg : Config) (t : Z) (before : Z * Z) (a : Ant) :
  on_schedule cfg t a -> t < manhattan (NEST cfg) (FOOD cfg) ->
  reached_food cfg before a = false.
Proof.
  intros [Hd _] Hlt. unfold reached_food.
  destruct (pos_eqb (pos a) (FOOD cfg)) eqn:E.
  - apply pos_eqb_eq in E. rewrite E in Hd. lia.
  - now rewrite andb_false_r.
Qed.

Lemma schedule_no_return (cfg : Config) (t : Z) (before : Z * Z) (a : Ant) :
  on_schedule cfg t a -> t < 2 * manhattan (NEST cfg) (FOOD cfg) + 1 ->
  reached_nest cfg before a = false.
Proof.
  intros [_ Hcar] Hlt. unfold reached_nest.
  destruct (carrying a) eqn:Hc; [| reflexivity].
  destruct (pos_eqb (pos a) (NEST cfg)) eqn:E; [| reflexivity].
  apply pos_eqb_eq in E. specialize (Hcar eq_refl). rewrite E in Hcar.
  rewrite (manhattan_sym (FOOD cfg)) in Hcar. lia.
Qed.

Lemma schedule_no_carrier (cfg : Config) (t : Z) (a : Ant) :
  on_schedule cfg t a -> t <= manhattan (NEST cfg) (FOOD cfg) -> carrying a = false.
Proof.
  intros [_ Hcar] Hle. destruct (carrying a); [| reflexivity].
  specialize (Hcar eq_refl).
  assert (0 <= manhattan (FOOD cfg) (pos a)) by (unfold manhattan; lia). lia.
Qed.

Lemma tick_schedule (cfg : Config) (draws : nat -> Qc) (t : Z) (s s' : Sim) :
  Forall (on_schedule cfg t) (ants s) ->
  tick cfg draws s = Some s' ->
  Forall (on_schedule cfg (t + 1)) (ants s') /\
  (t + 1 < manhattan (NEST cfg) (FOOD cfg) ->
   found_food (stats s') = found_food (stats s)) /\
  (t + 1 < 2 * manhattan (NEST cfg) (FOOD cfg) + 1 ->
   returned (stats s') = returned (stats s)) /\
  (t <= manhattan (NEST cfg) (FOOD cfg) ->
   pheromones s = pheromones (initial cfg) ->
   pheromones s' = pheromones (initial cfg)).
Proof.
  intros Hall Ht. unfold tick in Ht.
  destruct (ants_loop cfg draws (ants s) (pheromones s) (stats s) (rng s))
    as [[[[done ph'] st'] rng'] |] eqn:Hl; [| discriminate].
  destruct (evaporate cfg ph') as [phe |] eqn:Hev; [| discriminate].
  inversion Ht; subst s'. cbn [ants stats pheromones].
  assert (Hdone : Forall (on_schedule cfg (t + 1)) done).
  { apply (ants_loop_Forall_to cfg draws (on_schedule cfg t) (on_schedule cfg (t + 1))
             (fun b ph rng a ph1 rng1 => step_schedule cfg draws t b a ph ph1 rng rng1)
             _ _ _ _ _ _ _ _ Hall Hl). }
  destruct (ants_loop_stats cfg draws _ _ _ _ _ _ _ _ Hl) as (Hf & Hr & _).
  pose proof (Forall_combine_snd (on_schedule cfg (t + 1)) (ants s) done Hdone) as Hpairs.
  splits; auto.
  - intros Hlt. rewrite Hf, count_none; [lia |].
    revert Hpairs. apply Forall_impl. intros ba Hba.
    now apply (schedule_no_find cfg (t + 1)).
  - intros Hlt. rewrite Hr, count_none; [lia |].
    revert Hpairs. apply Forall_impl. intros ba Hba.
    now apply (schedule_no_return cfg (t + 1)).
  - intros Hle Hph.
    assert (Hnc : Forall (fun a => carrying a = false) (ants s)).
    { revert Hall. apply Forall_impl. intros a Ha.
      now apply (schedule_no_carrier cfg t). }
    rewrite (ants_loop_no_carrier cfg draws _ _ _ _ _ _ _ _ Hnc Hl), Hph in Hev.
    rewrite evaporate_initial in Hev. now inversion Hev.
Qed.

Lemma ticks_schedule (cfg : Config) (draws : nat -> Qc) (n : nat) :
  forall t s s',
    Forall (on_schedule cfg t) (ants s) ->
    ticks cfg draws n s = Some s' ->
    Forall (on_schedule cfg (t + Z.of_nat n)) (ants s') /\
    (t + Z.of_nat n < manhattan (NEST cfg) (FOOD cfg) ->
     found_food (stats s') = found_food (stats s)) /\
    (t + Z.of_nat n < 2 * manhattan (NEST cfg) (FOOD cfg) + 1 ->
     returned (stats s') = returned (stats s)) /\
    (t + Z.of_nat n <= manhattan (NEST cfg) (FOOD cfg) + 1 ->
     pheromones s = pheromones (initial cfg) ->
     pheromones s' = pheromones (initial cfg)).
Proof.
  induction n as [| n IH]; intros t s s' Hall H; simpl in H.
  - inversion H; subst s'. rewrite Z.add_0_r. splits; auto.
  - destruct (tick cfg draws s) as [s1 |] eqn:Ht; [| discriminate].
    destruct (tick_schedule cfg draws t s s1 Hall Ht) as (Hall1 & Hf1 & Hr1 & Hp1).
    destruct (IH (t + 1) s1 s' Hall1 H) as (Hall' & Hf' & Hr' & Hp').
    replace (t + Z.of_nat (S n)) with (t + 1 + Z.of_nat n) by lia.
    splits; auto.
    + intros Hlt. rewrite Hf', Hf1; lia.
    + intros Hlt. rewrite Hr', Hr1; lia.
    + intros Hle Hph. apply Hp'; [lia |]. apply Hp1; [lia | exact Hph].
Qed.

(** X4: nothing can be counted before the agents have walked the
    distance: after [steps] ticks every agent is within [steps] steps
    of NEST; [found_food] is 0 while [steps] is less than the
    distance [d] from NEST to FOOD, [returned] is 0 while [steps] is
    less than [2 d + 1], and the field holds no pheromone as long as
    [steps <= d + 1].  At the constants of the source [d] is 38. *)
Theorem nothing_before_its_time (cfg : Config) (draws : nat -> Qc) (steps : Z) :
  exists s,
    simulate cfg draws steps = Some s /\
    Forall (fun a => manhattan (NEST cfg) (pos a) <= Z.max 0 steps) (ants s) /\
    (steps < manhattan (NEST cfg) (FOOD cfg) -> found_food (stats s) = 0) /\
    (steps < 2 * manhattan (NEST cfg) (FOOD cfg) + 1 -> returned (stats s) = 0) /\
    (steps <= manhattan (NEST cfg) (FOOD cfg) + 1 ->
     pheromones s = pheromones (initial cfg)).
Proof.
  destruct (simulate_total cfg draws steps) as (s & Hs & _).
  assert (Hinit : Forall (on_schedule cfg 0) (ants (initial cfg))).
  { destruct (initial_ants cfg) as [_ Hall]. revert Hall. apply Forall_impl.
    intros a [Hp Hc]. unfold on_schedule. rewrite Hp, Hc, manhattan_refl.
    split; [lia | discriminate]. }
  destruct (ticks_schedule cfg draws _ 0 _ _ Hinit Hs) as (Hall & Hf & Hr & Hp).
  assert (Hd : 0 <= manhattan (NEST cfg) (FOOD cfg)) by (unfold manhattan; lia).
  assert (Ht : 0 + Z.of_nat (Z.to_nat steps) = Z.max 0 steps) by lia.
  rewrite Ht in *.
  exists s. splits; auto.
  - revert Hall. apply Forall_impl. intros a [Ha _]. exact Ha.
  - intros Hlt. destruct (Z.le_gt_cases steps 0) as [Hneg | Hpos].
    + unfold simulate in Hs. replace (Z.to_nat steps) with 0%nat in Hs by lia.
      simpl in Hs. now inversion Hs.
    + rewrite Hf by lia. reflexivity.
  - intros Hlt. rewrite Hr by lia. reflexivity.
  - intros Hle. apply Hp; [lia | reflexivity].
Qed.

Lemma nothing_before_its_time_witness :
  exists s,
    simulate default_config straight_to_food 37 = Some s /\
    found_food (stats s) = 0 /\ returned (stats s) = 0 /\
    pheromones s = pheromones (initial default_config).
Proof.
  destruct (nothing_before_its_time default_config straight_to_food 37)
    as (s & Hs & _ & Hf & Hr & Hp).
  exists s. splits; auto.
  - apply Hf. vm_compute. reflexivity.
  - apply Hr. vm_compute. reflexivity.
  - apply Hp. vm_compute. discriminate.
Defined.

(** ** The weighted choice *)

Lemma firstn_succ_nth {A : Type} (k : nat) (l : list A) (a : A) :
  nth_error l k = Some a -> firstn (S k) l = firstn k l ++ [a].
Proof.
  revert l. induction k as [| k IH]; intros [| h t] H; try discriminate.
  - simpl in H. inversion H. reflexivity.
  - simpl in H. cbn [firstn app]. f_equal. apply (IH _ H).
Qed.

Lemma combine_firstn_skipn {A B : Type} (k : nat) (cs : list A) (ws : list B)
    (c : A) (w : B) :
  nth_error cs k = Some c -> nth_error ws k = Some w ->
  combine cs ws =
  combine (firstn k cs) (firstn k ws) ++ (c, w) :: combine (skipn (S k) cs) (skipn (S k) ws).
Proof.
  revert cs ws. induction k as [| k IH]; intros [| c0 cs] [| w0 ws] Hc Hw; try discriminate.
  - simpl in Hc, Hw. inversion Hc; inversion Hw. reflexivity.
  - simpl in Hc, Hw. cbn [firstn skipn combine app]. f_equal. apply (IH _ _ Hc Hw).
Qed.

Lemma map_snd_combine_firstn {A B : Type} (k : nat) (cs : list A) (ws : list B) :
  length ws = length cs ->
  map snd (combine (firstn k cs) (firstn k ws)) = firstn k ws.
Proof.
  intros Hlen. apply map_snd_combine. rewrite !length_firstn. lia.
Qed.

Lemma neighbours_lengths (cfg : Config) (ph : Binary64.Field) (x y : Z)
    (dirs : list (Z * Z)) :
  forall cs ws,
    Binary64.neighbours cfg ph x y dirs = Some (cs, ws) -> length ws = length cs.
Proof.
  induction dirs as [| [dx dy] rest IH]; intros cs ws H; cbn [Binary64.neighbours] in H.
  - inversion H. reflexivity.
  - destruct (in_bounds cfg (x + dx, y + dy)); [| now apply IH].
    destruct (Binary64.cell ph (x + dx) (y + dy)) as [p |]; [| discriminate].
    destruct (Binary64.neighbours cfg ph x y rest) as [[cs' ws'] |]; [| discriminate].
    inversion H. simpl. f_equal. now apply IH.
Qed.

(** The loop passes every candidate whose test fails. *)
Lemma select_skips (r : float) (pre rest : list ((Z * Z) * float)) :
  forall cumulative,
    (forall j, (j < length pre)%nat ->
               (r <=? Binary64.cumulated cumulative (firstn (S j) (map snd pre)))%float
               = false) ->
    Binary64.select r cumulative (pre ++ rest) =
    Binary64.select r (Binary64.cumulated cumulative (map snd pre)) rest.
Proof.
  induction pre as [| [c w] pre IH]; intros c0 H; [reflexivity |].
  cbn [app Binary64.select map snd].
  pose proof (H 0%nat ltac:(simpl; lia)) as H0.
  cbn [map snd firstn Binary64.cumulated fold_left] in H0. rewrite H0.
  change (Binary64.cumulated c0 (w :: map snd pre))
    with (Binary64.cumulated (c0 + w) (map snd pre)).
  apply IH. intros j Hj. apply (H (S j)). simpl. lia.
Qed.

Lemma select_at (r : float) (cs : list (Z * Z)) (ws : list float) (k : nat) (c : Z * Z) :
  length ws = length cs -> nth_error cs k = Some c ->
  (forall j, (j < k)%nat -> Binary64.reaches r ws j = false) ->
  Binary64.reaches r ws k = true ->
  Binary64.select r 0 (combine cs ws) = Some c.
Proof.
  intros Hlen Hc Hpre Hk.
  assert (Hklt : (k < length cs)%nat) by (apply nth_error_Some; congruence).
  destruct (nth_error ws k) as [w |] eqn:Hw;
    [| apply nth_error_None in Hw; lia].
  rewrite (combine_firstn_skipn k cs ws c w Hc Hw).
  rewrite select_skips.
  - rewrite (map_snd_combine_firstn k cs ws Hlen). cbn [Binary64.select].
    unfold Binary64.reaches in Hk. rewrite (firstn_succ_nth k ws w Hw) in Hk.
    unfold Binary64.cumulated in Hk. rewrite fold_left_app in Hk.
    cbn [fold_left] in Hk. fold (Binary64.cumulated 0 (firstn k ws)) in Hk.
    now rewrite Hk.
  - rewrite (map_snd_combine_firstn k cs ws Hlen).
    rewrite length_combine, !length_firstn. intros j Hj.
    rewrite firstn_firstn. replace (Nat.min (S j) k) with (S j) by lia.
    apply Hpre. lia.
Qed.

Lemma select_none (r : float) (cs : list (Z * Z)) (ws : list float) :
  length ws = length cs ->
  (forall j, (j < length cs)%nat -> Binary64.reaches r ws j = false) ->
  Binary64.select r 0 (combine cs ws) = None.
Proof.
  intros Hlen Hall.
  rewrite <- (app_nil_r (combine cs ws)). rewrite select_skips; [reflexivity |].
  rewrite (map_snd_combine cs ws) by congruence.
  rewrite length_combine. intros j Hj. apply Hall. lia.
Qed.

(** X5: the weighted choice as it is computed.  [move] returns after
    one draw with [id] and [carrying] as they were, and [pos] is the
    first candidate, in the order of DIRECTIONS, at which the test
    [r <= cumulative] passes, [cumulative] being the weights added up
    to it one by one in floating point; when the test passes at no
    candidate, [pos] is what it was. *)
Theorem move_weighted (cfg : Config) (fl : Binary64.Floats) (draws : nat -> float)
    (ant : Ant) (ph : Binary64.Field) (rng : nat) (cs : list (Z * Z)) (ws : list float) :
  Binary64.neighbours cfg ph (fst (pos ant)) (snd (pos ant)) DIRECTIONS = Some (cs, ws) ->
  let r := Binary64.uniform 0 (Binary64.sum (Binary64.summation fl) ws) (draws rng) in
  exists ant',
    Binary64.move cfg fl draws ant ph rng = Some (ant', S rng) /\
    id ant' = id ant /\ carrying ant' = carrying ant /\
    (forall k c,
        nth_error cs k = Some c ->
        (forall j, (j < k)%nat -> Binary64.reaches r ws j = false) ->
        Binary64.reaches r ws k = true ->
        pos ant' = c) /\
    ((forall j, (j < length cs)%nat -> Binary64.reaches r ws j = false) ->
     pos ant' = pos ant).
Proof.
  intros Hn r.
  pose proof (neighbours_lengths cfg ph _ _ _ _ _ Hn) as Hlen.
  exists (match Binary64.select r 0 (combine cs ws) with
          | Some c => set_pos ant c
          | None => ant
          end).
  splits.
  - unfold Binary64.move. destruct (pos ant) as [x y]. cbn [fst snd] in Hn. rewrite Hn.
    fold r. destruct (Binary64.select r 0 (combine cs ws)); reflexivity.
  - destruct (Binary64.select r 0 (combine cs ws)); reflexivity.
  - destruct (Binary64.select r 0 (combine cs ws)); reflexivity.
  - intros k c Hc Hpre Hk. rewrite (select_at r cs ws k c Hlen Hc Hpre Hk). reflexivity.
  - intros Hall. rewrite (select_none r cs ws Hlen Hall). reflexivity.
Qed.

Lemma move_weighted_witness :
  exists ant',
    Binary64.move default_config (source_floats Binary64.Compensated)
      (fun _ => 0.33333333333333337%float) (mkAnt 0 (0, 5) false)
      (Binary64.pheromones (Binary64.initial default_config)) 0
      = Some (ant', 1%nat) /\
    pos ant' = (1, 5).
Proof.
  destruct (move_weighted default_config (source_floats Binary64.Compensated)
              (fun _ => 0.33333333333333337%float) (mkAnt 0 (0, 5) false)
              (Binary64.pheromones (Binary64.initial default_config)) 0
              [(1, 5); (0, 4); (0, 6)] [1%float; 1%float; 1%float])
    as (ant' & Hm & _ & _ & Hk & _).
  - vm_compute. reflexivity.
  - exists ant'. split; [exact Hm |].
    apply (Hk 0%nat (1, 5)).
    + reflexivity.
    + intros j Hj. lia.
    + vm_compute. reflexivity.
Defined.

(** ** The operations of one tick *)








(** ** When [evaporate] raises *)

Lemma subscript_lt (len : nat) (i : Z) (k : nat) :
  subscript len i = Some k -> (k < len)%nat.
Proof.
  unfold subscript.
  destruct ((0 <=? i) && (i <? Z.of_nat len)) eqn:E1.
  - intros H. inversion H. apply andb_true_iff in E1. lia.
  - destruct ((- Z.of_nat len <=? i) && (i <? 0)) eqn:E2; [| discriminate].
    intros H. inversion H. apply andb_true_iff in E2. lia.
Qed.

Lemma update_none (f : Qc -> Qc) (ph : Field) (x y : Z) :
  update f ph x y = None <-> cell ph x y = None.
Proof.
  unfold update, cell.
  destruct (getitem ph y) as [row |] eqn:Hr; [| tauto].
  destruct (getitem row x) as [v |] eqn:Hv; [| tauto].
  unfold setitem. unfold getitem in Hr, Hv.
  destruct (subscript (length row) x) as [j |]; [| discriminate].
  destruct (subscript (length ph) y) as [i |]; [| discriminate].
  split; discriminate.
Qed.

Lemma update_cells (f : Qc -> Qc) (ph ph' : Field) (x y : Z) :
  update f ph x y = Some ph' ->
  forall x' y', cell ph' x' y' = None <-> cell ph x' y' = None.
Proof.
  intros H x' y'. apply update_inv in H. destruct H as (i & j & row & v & Hi & Hj & ->).
  unfold cell, getitem. rewrite length_replace.
  destruct (subscript (length ph) y') as [k |] eqn:Hk; [| tauto].
  destruct (Nat.eq_dec i k) as [-> | Hne].
  - rewrite nth_error_replace_same by (apply (subscript_lt _ _ _ Hk)).
    rewrite Hi, length_replace.
    destruct (subscript (length row) x') as [k' |]; [| tauto].
    rewrite !nth_error_None, length_replace. tauto.
  - rewrite nth_error_replace_other by exact Hne. tauto.
Qed.

Lemma evaporate_row_cells (cfg : Config) (y : Z) (xs : list Z) :
  forall ph ph',
    evaporate_row cfg ph y xs = Some ph' ->
    forall x' y', cell ph' x' y' = None <-> cell ph x' y' = None.
Proof.
  induction xs as [| x xs IH]; intros ph ph' H x' y'; cbn [evaporate_row] in H.
  - inversion H. tauto.
  - destruct (update _ ph x y) as [ph1 |] eqn:Hu; [| discriminate].
    rewrite (IH _ _ H). apply (update_cells _ _ _ _ _ Hu).
Qed.

Lemma evaporate_row_none (cfg : Config) (y : Z) (xs : list Z) :
  forall ph,
    evaporate_row cfg ph y xs = None <-> exists x, In x xs /\ cell ph x y = None.
Proof.
  induction xs as [| x xs IH]; intros ph; cbn [evaporate_row].
  - split; [discriminate | intros (x & [] & _)].
  - destruct (update _ ph x y) as [ph1 |] eqn:Hu.
    + rewrite IH. split.
      * intros (x' & Hin & Hc). exists x'. split; [now right |].
        now apply (update_cells _ _ _ _ _ Hu).
      * intros (x' & [<- | Hin] & Hc).
        -- apply (update_none (fun v => v * (1 - EVAPORATION cfg))%Qc) in Hc. congruence.
        -- exists x'. split; [exact Hin |]. now apply (update_cells _ _ _ _ _ Hu).
    + split; [| reflexivity]. intros _. exists x. split; [now left |].
      now apply (update_none (fun v => v * (1 - EVAPORATION cfg))%Qc).
Qed.

Lemma evaporate_rows_none (cfg : Config) (ys : list Z) :
  forall ph,
    evaporate_rows cfg ph ys = None <->
    exists y, In y ys /\ exists x, In x (range (WIDTH cfg)) /\ cell ph x y = None.
Proof.
  induction ys as [| y ys IH]; intros ph; cbn [evaporate_rows].
  - split; [discriminate | intros (y & [] & _)].
  - destruct (evaporate_row cfg ph y (range (WIDTH cfg))) as [ph1 |] eqn:He.
    + rewrite IH. split.
      * intros (y' & Hin & x & Hx & Hc). exists y'. split; [now right |].
        exists x. split; [exact Hx |]. now apply (evaporate_row_cells _ _ _ _ _ He).
      * intros (y' & [<- | Hin] & x & Hx & Hc).
        -- assert (Hn : evaporate_row cfg ph y (range (WIDTH cfg)) = None)
             by (apply evaporate_row_none; eauto).
           congruence.
        -- exists y'. split; [exact Hin |]. exists x. split; [exact Hx |].
           now apply (evaporate_row_cells _ _ _ _ _ He).
    + split; [| reflexivity]. intros _. apply evaporate_row_none in He.
      destruct He as (x & Hx & Hc). exists y. split; [now left | eauto].
Qed.

Lemma In_range (n x : Z) : In x (range n) <-> 0 <= x < n.
Proof.
  unfold range. rewrite in_map_iff. split.
  - intros (k & <- & Hk). apply in_seq in Hk. lia.
  - intros Hx. exists (Z.to_nat x). split; [lia |]. apply in_seq. lia.
Qed.

(** X8: [evaporate] raises exactly when the field lacks a cell of
    the grid: some [(x, y)] with [0 <= x < WIDTH] and
    [0 <= y < HEIGHT] for which [pheromones[y][x]] does not exist.
    Rows and cells beyond the grid do no harm, and with [WIDTH <= 0]
    or [HEIGHT <= 0] nothing is read at all. *)
Theorem evaporate_raises (cfg : Config) (ph : Field) :
  evaporate cfg ph = None <->
  exists x y, in_bounds cfg (x, y) = true /\ cell ph x y = None.
Proof.
  unfold evaporate. rewrite evaporate_rows_none. split.
  - intros (y & Hy & x & Hx & Hc). exists x, y. split; [| exact Hc].
    apply in_bounds_iff. apply In_range in Hx, Hy. lia.
  - intros (x & y & Hin & Hc). apply in_bounds_iff in Hin.
    exists y. split; [apply In_range; lia |].
    exists x. split; [apply In_range; lia | exact Hc].
Qed.

(** ** When [move] raises *)

Lemma neighbours_raises (cfg : Config) (ph : Field) (x y : Z) (dirs : list (Z * Z)) :
  neighbours cfg ph x y dirs = None <->
  exists d,
    In d dirs /\ in_bounds cfg (offset (x, y) d) = true /\
    cell ph (fst (offset (x, y) d)) (snd (offset (x, y) d)) = None.
Proof.
  induction dirs as [| [dx dy] rest IH]; cbn [neighbours].
  - split; [discriminate | intros (d & [] & _)].
  - destruct (in_bounds cfg (x + dx, y + dy)) eqn:Hin.
    + destruct (cell ph (x + dx) (y + dy)) as [p |] eqn:Hc.
      * destruct (neighbours cfg ph x y rest) as [[cs ws] |] eqn:Hn.
        -- split; [discriminate |]. intros (d & [<- | Hd] & Hb & Hcell).
           ++ cbn [offset fst snd] in Hcell. congruence.
           ++ assert (Hnone : Some (cs, ws) = None) by (apply IH; eauto).
              discriminate.
        -- split; [| reflexivity]. intros _.
           destruct (proj1 IH eq_refl) as (d & Hd & Hrest).
           exists d. split; [now right | exact Hrest].
      * split; [| reflexivity]. intros _. exists (dx, dy).
        split; [now left |]. cbn [offset fst snd]. auto.
    + rewrite IH. split.
      * intros (d & Hd & Hrest). exists d. split; [now right | exact Hrest].
      * intros (d & [<- | Hd] & Hb & Hcell).
        -- change (offset (x, y) (dx, dy)) with (x + dx, y + dy) in Hb. congruence.
        -- eauto.
Qed.

(** X9: [Ant.move] raises exactly when the field lacks an in-bounds
    orthogonal neighbour of the agent's position; otherwise it
    returns after exactly one draw. *)
Theorem move_raises (cfg : Config) (draws : nat -> Qc) (ant : Ant) (ph : Field)
    (rng : nat) :
  (move cfg draws ant ph rng = None <->
   exists c,
     adjacent (pos ant) c /\ in_bounds cfg c = true /\
     cell ph (fst c) (snd c) = None) /\
  (forall r, move cfg draws ant ph rng = Some r -> snd r = S rng).
Proof.
  unfold move, adjacent. destruct (pos ant) as [x y].
  pose proof (neighbours_raises cfg ph x y DIRECTIONS) as Hr.
  destruct (neighbours cfg ph x y DIRECTIONS) as [[cs ws] |].
  - split.
    + split.
      * destruct (select _ _ _); discriminate.
      * intros (c & Hc & Hb & Hcell). apply in_map_iff in Hc.
        destruct Hc as (d & <- & Hd).
        assert (Hnone : Some (cs, ws) = None) by (apply Hr; eauto).
        discriminate.
    + intros r. destruct (select _ _ _); intros H; inversion H; reflexivity.
  - split; [| discriminate]. split; [| reflexivity]. intros _.
    destruct (proj1 Hr eq_refl) as (d & Hd & Hb & Hcell).
    exists (offset (x, y) d). split; [now apply in_map | auto].
Qed.

(** ** Who is who *)

Lemma step_id (cfg : Config) (draws : nat -> Qc) (ant ant' : Ant) (ph ph' : Field)
    (rng rng' : nat) :
  step cfg draws ant ph rng = Some (ant', ph', rng') -> id ant' = id ant.
Proof.
  intros H. apply step_inv in H.
  destruct H as [(_ & _ & -> & _) | [(_ & _ & Hm & _) |
                 [(_ & _ & -> & _) | (_ & _ & Hm & _)]]]; try reflexivity;
    apply move_inv in Hm; destruct Hm as [_ [-> | (c & -> & _)]]; reflexivity.
Qed.

Lemma ants_loop_ids (cfg : Config) (draws : nat -> Qc) (todo : list Ant) :
  forall ph st rng done ph' st' rng',
    ants_loop cfg draws todo ph st rng = Some (done, ph', st', rng') ->
    map id done = map id todo.
Proof.
  induction todo as [| ant rest IH]; intros ph st rng done ph' st' rng' H.
  - simpl in H. inversion H. reflexivity.
  - apply ants_loop_cons in H. simpl in H.
    destruct H as (a' & ph1 & rng1 & rest' & Hst & Hl & ->).
    cbn [map]. f_equal; [apply (step_id _ _ _ _ _ _ _ _ Hst) | apply (IH _ _ _ _ _ _ _ Hl)].
Qed.

Lemma ticks_ids (cfg : Config) (draws : nat -> Qc) (n : nat) :
  forall s s', ticks cfg draws n s = Some s' -> map id (ants s') = map id (ants s).
Proof.
  induction n as [| n IH]; intros s s' H; simpl in H.
  - inversion H. reflexivity.
  - destruct (tick cfg draws s) as [s1 |] eqn:Ht; [| discriminate].
    rewrite (IH _ _ H). unfold tick in Ht.
    destruct (ants_loop cfg draws (ants s) (pheromones s) (stats s) (rng s))
      as [[[[done ph1] st1] rng1] |] eqn:Hl; [| discriminate].
    destruct (evaporate cfg ph1); [| discriminate].
    inversion Ht; subst s1. cbn [ants]. apply (ants_loop_ids _ _ _ _ _ _ _ _ _ _ Hl).
Qed.

Lemma NoDup_map_inj {A B : Type} (f : A -> B) (l : list A) :
  (forall a b, f a = f b -> a = b) -> NoDup l -> NoDup (map f l).
Proof.
  intros Hinj Hl. induction Hl as [| a l Ha Hl IH]; cbn [map]; constructor; auto.
  intros Hin. apply in_map_iff in Hin. destruct Hin as (b & Hb & Hin).
  apply Hinj in Hb. subst b. contradiction.
Qed.

(** X10: the agents keep their places and their names: after any
    number of ticks the list of ants holds, in this order, the agents
    with ids [0, 1, ..., ANT_COUNT - 1]; none is added, dropped,
    renamed or moved in the list. *)
Theorem ids_in_order (cfg : Config) (draws : nat -> Qc) (steps : Z) :
  exists s,
    simulate cfg draws steps = Some s /\
    map id (ants s) = range (ANT_COUNT cfg) /\
    NoDup (map id (ants s)).
Proof.
  destruct (simulate_total cfg draws steps) as (s & Hs & _).
  assert (Hids : map id (ants s) = range (ANT_COUNT cfg)).
  { rewrite (ticks_ids cfg draws _ _ _ Hs). cbn [initial ants].
    rewrite map_map. cbn [new_ant id]. apply map_id. }
  exists s. splits; auto.
  rewrite Hids. unfold range. apply NoDup_map_inj.
  - intros a b. apply Nat2Z.inj.
  - apply seq_NoDup.
Qed.

(** ** Before the first find *)

Lemma step_quiet (cfg : Config) (draws : nat -> Qc) (b a : Ant) (ph ph' : Field)
    (rng rng' : nat) :
  carrying b = false -> pos b <> FOOD cfg ->
  step cfg draws b ph rng = Some (a, ph', rng') ->
  carrying a = false /\ ph' = ph /\ rng' = S rng /\
  reached_nest cfg (pos b) a = false /\
  (reached_food cfg (pos b) a = false -> pos a <> FOOD cfg).
Proof.
  intros Hc Hp H. apply step_inv in H.
  destruct H as [(_ & Hp' & _) | [(_ & _ & Hm & ->) | [(Hc' & _) | (Hc' & _)]]];
    try congruence.
  apply move_inv in Hm. destruct Hm as [-> Ha].
  assert (Hca : carrying a = false) by (destruct Ha as [-> | (c & -> & _)]; exact Hc).
  splits; auto.
  - unfold reached_nest. now rewrite Hca.
  - unfold reached_food. rewrite Hca. apply pos_eqb_neq in Hp. rewrite Hp.
    cbn [negb andb]. rewrite andb_true_r. apply pos_eqb_neq.
Qed.

Lemma ants_loop_quiet (cfg : Config) (draws : nat -> Qc) (todo : list Ant) :
  forall ph st rng done ph' st' rng',
    Forall (fun a => carrying a = false /\ pos a <> FOOD cfg) todo ->
    ants_loop cfg draws todo ph st rng = Some (done, ph', st', rng') ->
    found_food st <= found_food st' /\
    (found_food st' = found_food st ->
     Forall (fun a => carrying a = false /\ pos a <> FOOD cfg) done /\
     ph' = ph /\ returned st' = returned st /\ rng' = (rng + length todo)%nat).
Proof.
  induction todo as [| ant rest IH]; intros ph st rng done ph' st' rng' Hall H.
  - simpl in H. inversion H; subst. split; [lia |]. intros _. splits; auto.
  - apply ants_loop_cons in H. simpl in H.
    destruct H as (a' & ph1 & rng1 & rest' & Hst & Hl & ->).
    inversion Hall as [| ? ? [Hc Hp] Hrest]; subst.
    destruct (step_quiet cfg draws _ _ _ _ _ _ Hc Hp Hst) as (Hca & -> & -> & Hrn & Hrf).
    destruct (IH _ _ _ _ _ _ _ Hrest Hl) as [Hle Hquiet].
    destruct (record_counts cfg (pos ant) a' st) as [Hf Hr].
    rewrite Hrn in Hr.
    destruct (reached_food cfg (pos ant) a') eqn:E.
    + split; [lia |]. intros Heq. lia.
    + split; [lia |]. intros Heq.
      destruct Hquiet as (Hdone & Hph & Hret & Hrng); [lia |].
      splits; auto; simpl length; lia.
Qed.

Lemma tick_quiet (cfg : Config) (draws : nat -> Qc) (s s' : Sim) :
  Forall (fun a => carrying a = false /\ pos a <> FOOD cfg) (ants s) ->
  pheromones s = pheromones (initial cfg) ->
  tick cfg draws s = Some s' ->
  found_food (stats s) <= found_food (stats s') /\
  (found_food (stats s') = found_food (stats s) ->
   Forall (fun a => carrying a = false /\ pos a <> FOOD cfg) (ants s') /\
   pheromones s' = pheromones (initial cfg) /\
   returned (stats s') = returned (stats s) /\
   rng s' = (rng s + length (ants s))%nat).
Proof.
  intros Hall Hph Ht. unfold tick in Ht.
  destruct (ants_loop cfg draws (ants s) (pheromones s) (stats s) (rng s))
    as [[[[done ph1] st1] rng1] |] eqn:Hl; [| discriminate].
  destruct (evaporate cfg ph1) as [phe |] eqn:Hev; [| discriminate].
  inversion Ht; subst s'. cbn [ants stats pheromones rng].
  destruct (ants_loop_quiet cfg draws _ _ _ _ _ _ _ _ Hall Hl) as [Hle Hquiet].
  split; [exact Hle |]. intros Heq.
  destruct (Hquiet Heq) as (Hdone & -> & Hret & Hrng).
  splits; auto.
  rewrite Hph, evaporate_initial in Hev. now inversion Hev.
Qed.

Lemma ticks_quiet (cfg : Config) (draws : nat -> Qc) (n : nat) :
  forall s s',
    Forall (fun a => carrying a = false /\ pos a <> FOOD cfg) (ants s) ->
    pheromones s = pheromones (initial cfg) ->
    ticks cfg draws n s = Some s' ->
    found_food (stats s') = found_food (stats s) ->
    Forall (fun a => carrying a = false /\ pos a <> FOOD cfg) (ants s') /\
    pheromones s' = pheromones (initial cfg) /\
    returned (stats s') = returned (stats s) /\
    rng s' = (rng s + n * length (ants s))%nat.
Proof.
  induction n as [| n IH]; intros s s' Hall Hph H Heq; simpl in H.
  - inversion H; subst. splits; auto.
  - destruct (tick cfg draws s) as [s1 |] eqn:Ht; [| discriminate].
    destruct (tick_quiet cfg draws s s1 Hall Hph Ht) as [Hle Hquiet].
    destruct (ticks_observe cfg draws n s1 s' H) as (l & _ & _ & Hf & _).
    pose proof (count_ge_0 (counts_food cfg) l) as Hl.
    destruct Hquiet as (Hall1 & Hph1 & Hret1 & Hrng1); [lia |].
    destruct (IH s1 s' Hall1 Hph1 H) as (Hall' & Hph' & Hret' & Hrng'); [lia |].
    splits; auto; [lia |].
    rewrite Hrng', Hrng1. 
    assert (Hlen : length (ants s1) = length (ants s)).
    { destruct (tick_len cfg draws s s1 Ht) as [Hlen _]. exact Hlen. }
    rewrite Hlen. simpl. lia.
Qed.

(** X11: nothing happens before the first find.  With FOOD away from
    NEST, as long as [found_food] is 0 no agent carries, [returned]
    is 0, the field holds no pheromone, and every step of every agent
    was a move, with one draw each. *)
Theorem quiet_until_found (cfg : Config) (draws : nat -> Qc) (steps : Z) :
  NEST cfg <> FOOD cfg ->
  exists s,
    simulate cfg draws steps = Some s /\
    (found_food (stats s) = 0 ->
     Forall (fun a => carrying a = false /\ pos a <> FOOD cfg) (ants s) /\
     returned (stats s) = 0 /\
     pheromones s = pheromones (initial cfg) /\
     rng s = (Z.to_nat steps * Z.to_nat (ANT_COUNT cfg))%nat).
Proof.
  intros Hne.
  destruct (simulate_total cfg draws steps) as (s & Hs & _ & _ & _).
  exists s. split; [exact Hs |]. intros Hf.
  assert (Hinit : Forall (fun a => carrying a = false /\ pos a <> FOOD cfg)
                    (ants (initial cfg))).
  { destruct (initial_ants cfg) as [_ Hall]. revert Hall. apply Forall_impl.
    intros a [Hp Hc]. split; [exact Hc | congruence]. }
  destruct (ticks_quiet cfg draws _ _ _ Hinit eq_refl Hs Hf) as (Hall & Hph & Hret & Hrng).
  splits; auto.
  rewrite Hrng. destruct (initial_ants cfg) as [Hlen _]. cbn [initial rng]. 
  rewrite Hlen. lia.
Qed.

Lemma quiet_until_found_witness :
  exists s,
    simulate corridor there_and_back 1 = Some s /\
    returned (stats s) = 0 /\
    pheromones s = pheromones (initial corridor).
Proof.
  destruct (quiet_until_found corridor there_and_back 1) as (s & Hs & H).
  - discriminate.
  - exists s. split; [exact Hs |].
    destruct H as (_ & Hr & Hp & _); [| split; assumption].
    vm_compute in Hs. inversion Hs. reflexivity.
Defined.

(** ** FOOD on NEST *)

Lemma step_at_nest (cfg : Config) (draws : nat -> Qc) (b a : Ant) (ph ph' : Field)
    (rng rng' : nat) (st : Stats) :
  NEST cfg = FOOD cfg -> pos b = NEST cfg ->
  step cfg draws b ph rng = Some (a, ph', rng') ->
  pos a = NEST cfg /\ carrying a = negb (carrying b) /\
  ph' = ph /\ rng' = rng /\ record cfg (pos b) a st = st.
Proof.
  intros Heq Hp H. apply step_inv in H.
  assert (Hrec : forall a', record cfg (pos b) a' st = st).
  { intros a'. unfold record, reached_food, reached_nest.
    rewrite Hp, <- Heq, pos_eqb_refl. cbn [negb]. now rewrite !andb_false_r. }
  destruct H as [(Hc & _ & -> & -> & ->) | [(_ & Hp' & _) |
                 [(Hc & _ & -> & -> & ->) | (_ & Hp' & _)]]];
    try congruence; rewrite Hc; splits; auto.
Qed.

Lemma ants_loop_at_nest (cfg : Config) (draws : nat -> Qc) (c : bool) (todo : list Ant) :
  NEST cfg = FOOD cfg ->
  forall ph st rng done ph' st' rng',
    Forall (fun a => pos a = NEST cfg /\ carrying a = c) todo ->
    ants_loop cfg draws todo ph st rng = Some (done, ph', st', rng') ->
    Forall (fun a => pos a = NEST cfg /\ carrying a = negb c) done /\
    ph' = ph /\ st' = st /\ rng' = rng.
Proof.
  intros Heq. induction todo as [| ant rest IH]; intros ph st rng done ph' st' rng' Hall H.
  - simpl in H. inversion H; subst. splits; auto.
  - apply ants_loop_cons in H. simpl in H.
    destruct H as (a' & ph1 & rng1 & rest' & Hst & Hl & ->).
    inversion Hall as [| ? ? [Hp Hc] Hrest]; subst.
    destruct (step_at_nest cfg draws _ _ _ _ _ _ st Heq Hp Hst)
      as (Hpa & Hca & -> & -> & Hrec).
    rewrite Hrec in Hl.
    destruct (IH _ _ _ _ _ _ _ Hrest Hl) as (Hdone & -> & -> & ->).
    splits; auto.
Qed.

Lemma ticks_at_nest (cfg : Config) (draws : nat -> Qc) (n : nat) :
  NEST cfg = FOOD cfg ->
  forall c s s',
    Forall (fun a => pos a = NEST cfg /\ carrying a = c) (ants s) ->
    pheromones s = pheromones (initial cfg) ->
    ticks cfg draws n s = Some s' ->
    Forall (fun a => pos a = NEST cfg /\ carrying a = xorb c (Nat.odd n)) (ants s') /\
    pheromones s' = pheromones (initial cfg) /\
    stats s' = stats s /\ rng s' = rng s.
Proof.
  intros Heq. induction n as [| n IH]; intros c s s' Hall Hph H.
  - simpl in H. inversion H; subst. rewrite xorb_false_r. splits; auto.
  - cbn [ticks] in H.
    destruct (tick cfg draws s) as [s1 |] eqn:Ht; [| discriminate].
    unfold tick in Ht.
    destruct (ants_loop cfg draws (ants s) (pheromones s) (stats s) (rng s))
      as [[[[done ph1] st1] rng1] |] eqn:Hl; [| discriminate].
    destruct (ants_loop_at_nest cfg draws c _ Heq _ _ _ _ _ _ _ Hall Hl)
      as (Hdone & -> & -> & ->).
    rewrite Hph, evaporate_initial in Ht.
    assert (Hs1 : ants s1 = done /\ pheromones s1 = pheromones (initial cfg) /\
                  stats s1 = stats s /\ rng s1 = rng s)
      by (inversion Ht; auto).
    destruct Hs1 as (Ha1 & Hp1 & Hst1 & Hr1). rewrite <- Ha1 in Hdone.
    destruct (IH (negb c) s1 s' Hdone Hp1 H) as (Hall' & Hph' & Hst' & Hrng').
    splits; auto; try congruence.
    revert Hall'. apply Forall_impl. intros a [Hp Hc]. split; [exact Hp |].
    rewrite Hc, Nat.odd_succ, <- Nat.negb_odd. now destruct c, (Nat.odd n).
Qed.

(** X12: with FOOD on NEST, which is what the source's
    [FOOD = (WIDTH - 1, HEIGHT - 1)] gives on a 1 x 1 grid, no agent
    ever leaves NEST: every agent picks up on the odd ticks and drops
    on the even ones, nothing is counted, nothing is deposited and no
    random number is drawn. *)
Theorem food_on_nest (cfg : Config) (draws : nat -> Qc) (steps : Z) :
  NEST cfg = FOOD cfg ->
  exists s,
    simulate cfg draws steps = Some s /\
    Forall (fun a => pos a = NEST cfg /\ carrying a = Nat.odd (Z.to_nat steps)) (ants s) /\
    stats s = {| found_food := 0; returned := 0 |} /\
    pheromones s = pheromones (initial cfg) /\
    rng s = 0%nat.
Proof.
  intros Heq.
  destruct (simulate_total cfg draws steps) as (s & Hs & _).
  destruct (initial_ants cfg) as [_ Hinit].
  destruct (ticks_at_nest cfg draws _ Heq false _ _ Hinit eq_refl Hs)
    as (Hall & Hph & Hst & Hrng).
  exists s. splits; auto.
Qed.

Lemma food_on_nest_witness :
  exists s,
    simulate one_by_one half 5 = Some s /\
    Forall (fun a => pos a = NEST one_by_one /\ carrying a = Nat.odd (Z.to_nat 5)) (ants s) /\
    stats s = {| found_food := 0; returned := 0 |} /\
    pheromones s = pheromones (initial one_by_one) /\
    rng s = 0%nat.
Proof.
  apply (food_on_nest one_by_one half 5). reflexivity.
Defined.

(** ** No cell above the bound *)









(** ** The trail *)







